(** * Association scoring engine of [ccal/analyze.py]

    A shallow embedding of [compute_against_reference] and
    [rank_features_against_reference]: score computation, bootstrap
    margin of error, permutation p-values, false-discovery-rate correction and
    the selection of the features to bootstrap and to plot.

    Modelling conventions.
    - A Python float is a [pyfloat]: an exact rational or NaN.  Rounding is not
      modelled; every comparison with NaN is false, as in IEEE 754.
    - A pandas Series is a list of labelled values, a DataFrame is its column
      labels and its labelled rows.
    - The interpreter is Python 3: [/] on integers is true division.
    - numpy's process-wide generator [np.random] is the state threaded through
      the functions that draw from it.  The state is the sequence of raw values
      the generator is going to produce.
    - An exception is an [exn] returned in place of the result; the library
      calls that can raise on the engine's own data do so in the model.
    - A string argument compared with [is] is a string object, with its text
      and with whether it is the interned object of that text.
    - The order in which the interpreter iterates a set is a parameter. *)

From Stdlib Require Import QArith Qround Lqa.
From stdpp Require Import base list strings gmap sorting.

Local Open Scope Z_scope.

(** ** Floats *)

Inductive pyfloat : Type :=
| Num (q : Q)
| NaN.

(** Python's [x > y], [x >= y], [x <= y] and [x != y] on floats. *)
Definition fgt (x y : pyfloat) : bool :=
  match x, y with
  | Num p, Num q => negb (Qle_bool p q)
  | _, _ => false
  end.

Definition fge (x y : pyfloat) : bool :=
  match x, y with
  | Num p, Num q => Qle_bool q p
  | _, _ => false
  end.

Definition fle (x y : pyfloat) : bool :=
  match x, y with
  | Num p, Num q => Qle_bool p q
  | _, _ => false
  end.

Definition fne (x y : pyfloat) : bool :=
  match x, y with
  | Num p, Num q => negb (Qeq_bool p q)
  | _, _ => true
  end.

Definition isnan (x : pyfloat) : bool :=
  match x with NaN => true | Num _ => false end.

(** Float arithmetic; NaN propagates.  [x / 0.0] on numpy floats is inf or nan
    with a warning; the model has no infinities and gives NaN. *)
Definition fmul (x y : pyfloat) : pyfloat :=
  match x, y with
  | Num p, Num q => Num (p * q)
  | _, _ => NaN
  end.

Definition fdiv (x y : pyfloat) : pyfloat :=
  match x, y with
  | Num p, Num q => if Qeq_bool q 0 then NaN else Num (p / q)
  | _, _ => NaN
  end.

(** [np.minimum]: NaN propagates. *)
Definition fmin (x y : pyfloat) : pyfloat :=
  match x, y with
  | Num p, Num q => if Qle_bool p q then Num p else Num q
  | _, _ => NaN
  end.

(** ** Exceptions and the computation monad *)

Inductive exn : Type :=
| ValueError_unknown_metric        (* 'Unknown metric {}.' *)
| ValueError_no_intersection       (* 'features and ref have 0 intersecting columns ...' *)
| ValueError_percentile            (* pandas: quantile outside [0, 1] *)
| ValueError_negative_dimensions   (* numpy: np.empty with a negative dimension *)
| TypeError_slice                  (* a float used as a slice bound *)
| ZeroDivisionError
| IndexError.

Inductive result (A : Type) : Type :=
| Ok (a : A)
| Err (e : exn).
Arguments Ok {A} a.
Arguments Err {A} e.

(** The generator state: the raw values [np.random] will produce next. *)
Definition rng : Type := nat -> nat.

(** A computation reads and advances the generator and may raise. *)
Definition M (A : Type) : Type := rng -> result (A * rng).

Definition raise {A} (e : exn) : M A := fun _ => Err e.

Definition lift {A} (r : result A) : M A :=
  fun g => match r with Ok a => Ok (a, g) | Err e => Err e end.

#[global] Instance M_ret : MRet M := fun A a g => Ok (a, g).

#[global] Instance M_bind : MBind M := fun A B k m g =>
  match m g with
  | Ok (a, g') => k a g'
  | Err e => Err e
  end.

(** ** numpy's generator *)

(** One bounded draw: a value in [0, bound) and the advanced state. *)
Definition draw_below (bound : nat) : M nat :=
  fun g => Ok ((g 0%nat mod bound)%nat, fun k => g (S k)).

(** [np.random.seed(s)]: the state is replaced by the stream of seed [s]. *)
Definition seed (stream_of : Z -> rng) (s : Z) : M unit :=
  fun _ => Ok (tt, stream_of s).

(** [x[i], x[j] = x[j], x[i]] *)
Definition swap {A} (i j : nat) (l : list A) : list A :=
  match l !! i, l !! j with
  | Some a, Some b => <[i := b]> (<[j := a]> l)
  | _, _ => l
  end.

(** [np.random.shuffle(x)]: for i = n-1 down to 1, j uniform on [0, i],
    swap x[i] and x[j]. *)
Fixpoint shuffle_from {A} (i : nat) (l : list A) : M (list A) :=
  match i with
  | O => mret l
  | S i' => j ← draw_below (S i); shuffle_from i' (swap i j l)
  end.

Definition random_shuffle {A} (l : list A) : M (list A) :=
  shuffle_from (length l - 1)%nat l.

(** [np.random.choice(a, size)]: [size] positions drawn uniformly with
    replacement.  numpy raises on an empty population with a positive size;
    the callers here draw only when there are at least four columns. *)
Fixpoint random_choice {A} (a : list A) (size : nat) : M (list A) :=
  match size with
  | O => mret []
  | S size' =>
      i ← draw_below (length a);
      rest ← random_choice a size';
      mret (match a !! i with Some x => x :: rest | None => rest end)
  end.

(** ** pandas objects *)

(** A Series: values with their labels, in order. *)
Definition Series : Type := list (string * pyfloat).

Record DataFrame : Type := {
  columns : list string;
  rows : list (string * list pyfloat)   (* index label, one value per column *)
}.

Definition index (df : DataFrame) : list string := (rows df).*1.

(** [s.ix[label]]: the value at a label; a missing label reads as NaN. *)
Fixpoint series_get (s : Series) (label : string) : pyfloat :=
  match s with
  | [] => NaN
  | (k, v) :: s' => if String.eqb k label then v else series_get s' label
  end.

(** [s.ix[labels]] *)
Definition series_take (s : Series) (labels : list string) : Series :=
  map (fun c => (c, series_get s c)) labels.

(** The values of one row at the given column labels. *)
Definition row_take (cols : list string) (vals : list pyfloat) (labels : list string)
  : list pyfloat :=
  (series_take (zip cols vals) labels).*2.

(** [df.ix[:, labels]] *)
Definition take_columns (df : DataFrame) (labels : list string) : DataFrame :=
  {| columns := labels;
     rows := map (fun r => (r.1, row_take (columns df) r.2 labels)) (rows df) |}.

(** [df.ix[labels, :]]: every row carrying each label, in label order. *)
Definition take_rows (df : DataFrame) (labels : list string) : list (string * list pyfloat) :=
  flat_map (fun l => filter (fun r => r.1 = l) (rows df)) labels.

(** A stable sort: each element goes before the first one it may precede, so
    elements that compare equal keep their order. *)
Fixpoint insert_by {A} (R : relation A) `{!RelDecision R} (x : A) (l : list A) : list A :=
  match l with
  | [] => [x]
  | y :: l' => if decide (R x y) then x :: l else y :: insert_by R x l'
  end.

Definition stable_sort {A} (R : relation A) `{!RelDecision R} (l : list A) : list A :=
  foldr (insert_by R) [] l.

(** [sort_values]: ascending or descending, NaN last ([na_position='last']).
    pandas sorts with numpy's quicksort, which is an insertion sort on up to 16
    values and keeps the order of equal values there; [DataFrame.sort_values]
    keeps it in both directions.  On longer inputs, and in the descending sort
    of a Series in some versions of pandas, equal values may come in another
    order: the model keeps their order throughout. *)
Definition precedes (ascending : bool) (x y : pyfloat) : bool :=
  match x, y with
  | Num p, Num q => if ascending then Qle_bool p q else Qle_bool q p
  | Num _, NaN => true
  | NaN, Num _ => false
  | NaN, NaN => true
  end.

Definition by_value {A} (key : A -> pyfloat) (ascending : bool) : relation A :=
  fun x y => precedes ascending (key x) (key y).

#[global] Instance by_value_dec {A} (key : A -> pyfloat) ascending :
  RelDecision (by_value key ascending).
Proof. intros x y. unfold by_value. apply _. Defined.

Definition sort_values {A} (key : A -> pyfloat) (ascending : bool) (l : list A) : list A :=
  stable_sort (by_value key ascending) l.

(** Sorting by label, as a join does with its keys; equal labels keep their
    order. *)
Definition by_label {A} : relation (string * A) :=
  fun x y => String.leb x.1 y.1.

#[global] Instance by_label_dec {A} : RelDecision (@by_label A).
Proof. intros x y. unfold by_label. apply _. Defined.

Definition sort_index {A} (l : list (string * A)) : list (string * A) :=
  stable_sort by_label l.

(** Errors without the generator. *)
#[global] Instance result_ret : MRet result := fun A a => Ok a.

#[global] Instance result_bind : MBind result := fun A B k r =>
  match r with
  | Ok a => k a
  | Err e => Err e
  end.

(** [Series.quantile(q)]: NaN values are dropped; linear interpolation between
    the two nearest order statistics; NaN on no values; a [q] outside [0, 1]
    is refused.  The value is the exact one.  pandas computes it in binary64,
    and where [q], the position or the interpolation is not exact there the
    rounded value can fall on the other side of a score; at [q = 0.5] on
    an odd number of values nothing is rounded, and on an even number the
    two quantiles compared with are still one and the same value. *)
Definition to_Q (x : pyfloat) : option Q :=
  match x with Num q => Some q | NaN => None end.

Definition valid_sorted (vals : list pyfloat) : list Q :=
  omap to_Q (sort_values id true vals).

Definition quantile (vals : list pyfloat) (q : Q) : result pyfloat :=
  if negb (Qle_bool 0 q && Qle_bool q 1) then Err ValueError_percentile
  else
    let v := valid_sorted vals in
    match v with
    | [] => Ok NaN
    | _ =>
        let h := (inject_Z (Z.of_nat (length v) - 1) * q)%Q in
        let lo := Z.to_nat (Qfloor h) in
        let frac := (h - inject_Z (Qfloor h))%Q in
        let a := default 0%Q (v !! lo) in
        let b := default a (v !! S lo) in
        Ok (Num (if Qeq_bool frac 0 then a else a + (b - a) * frac)%Q)
    end.

(** ** The selection of features (lines 310-319 and 255-262)

    [n_features] is an int or a float; below 1 it is a quantile, from 1 on a
    count.  Both places in the source spell the rule out in the same words; it
    is written once here. *)
Inductive number : Type :=
| Int (n : Z)
| Float (x : Q).

Definition number_value (n : number) : Q :=
  match n with Int n => inject_Z n | Float x => x end.

Definition lt_one (n : number) : bool := negb (Qle_bool 1 (number_value n)).

(** The thresholds the docstrings name: a count from 1 on, a quantile strictly
    between 0 and 1. *)
Definition valid_threshold (n : number) : Prop :=
  match n with
  | Int n => 1 <= n
  | Float x => (0 < x)%Q /\ (x < 1)%Q
  end.

(** [index[:n]] and [index[-n:]] for [n >= 1]. *)
Definition slice_head {A} (n : Z) (l : list A) : list A := take (Z.to_nat n) l.
Definition slice_tail {A} (n : Z) (l : list A) : list A :=
  drop (length l - Z.to_nat n)%nat l.

(** [1 - nfeatures] is exact here, and in binary64 at [nfeatures = 0.5]. *)
Definition select_indices (scores : list (string * pyfloat)) (nfeatures : number)
  : result (list string) :=
  if lt_one nfeatures then
    hi ← quantile scores.*2 (number_value nfeatures);
    lo ← quantile scores.*2 (1 - number_value nfeatures)%Q;
    mret (filter (fun r => fge r.2 hi || fle r.2 lo) scores).*1
  else
    match nfeatures with
    | Int n => mret (slice_head n scores.*1 ++ slice_tail n scores.*1)
    | Float _ => Err TypeError_slice
    end.

(** ** The score table *)

Record score_row : Type := {
  feature : string;
  metric_value : pyfloat;
  margin_of_error : pyfloat;   (* NaN where the feature was not bootstrapped *)
  local_pvalue : pyfloat;
  global_pvalue : pyfloat;
  fdr_bh : pyfloat
}.

(** [moe_column] is the confidence in the label ['{} MoE'] when the table has
    that column; without it [margin_of_error] is not part of the table. *)
Record score_table : Type := {
  moe_column : option Q;
  table_rows : list score_row
}.

(** The table between the stages: label, metric value, margin of error. *)
Definition bootstrapped : Type := option Q * list (string * pyfloat * pyfloat).

(** ** Division of Python numbers *)

(** [a / b] on ints.  [sum] over an empty numpy row is the int 0, and a row of
    null scores is empty only when [nperm] is 0, so the divisions of line 354
    and 359 raise exactly when the divisor is 0. *)
Definition true_div (a b : Z) : result pyfloat :=
  if b =? 0 then Err ZeroDivisionError else Ok (Num (inject_Z a / inject_Z b)).

(** [not x] on a float. *)
Definition is_zero (x : pyfloat) : bool :=
  match x with Num q => Qeq_bool q 0 | NaN => false end.

(** [sum(nulls > true_score)] *)
Definition count_exceeding (nulls : list pyfloat) (true_score : pyfloat) : Z :=
  Z.of_nat (length (filter (fun x => fgt x true_score) nulls)).

(** The rows of the left table in the order an outer join on the index gives
    its keys ([Index.join], [Index.union]): the left index as it is when the
    right index is empty, or is the same index and has each label once;
    sorted by label otherwise. *)
Definition join_order (scores confidence_intervals : list (string * pyfloat))
  : list (string * pyfloat) :=
  if decide (confidence_intervals = [] \/
             (NoDup scores.*1 /\ confidence_intervals.*1 = scores.*1))
  then scores
  else sort_index scores.

(** [pd.merge(scores, confidence_intervals, how='outer', left_index=True,
    right_index='True')].  The labels of [confidence_intervals] are labels of
    [scores]; a label occurring several times on the right gives one row for
    each occurrence. *)
Definition merge_outer (scores : list (string * pyfloat))
    (confidence_intervals : list (string * pyfloat)) : list (string * pyfloat * pyfloat) :=
  flat_map (fun r =>
      match filter (fun c => c.1 = r.1) confidence_intervals with
      | [] => [(r.1, r.2, NaN)]
      | cs => map (fun c => (r.1, r.2, c.2)) cs
      end)
    (join_order scores confidence_intervals).

(** The last value stored under a label. *)
Definition last_at (label : string) (l : list (string * pyfloat)) : pyfloat :=
  default NaN (snd <$> last (filter (fun e => e.1 = label) l)).

(** ** False-discovery-rate correction *)

(** [multipletests(pvals, method='fdr_bh')[1]] of statsmodels.  Before any
    correction the function computes [1. / ntests] for the Sidak level it also
    returns, which raises ZeroDivisionError when there is no p-value.  The
    correction is the Benjamini-Hochberg step-up: the p-values in ascending
    order, the value at rank [i] times [n / i], the running minimum from the
    largest rank down, clipped to [0, 1], returned in the order of the
    input. *)
Definition clip01 (x : pyfloat) : pyfloat :=
  match x with
  | Num q => Num (if Qle_bool q 0 then 0 else if Qle_bool 1 q then 1 else q)
  | NaN => NaN
  end.

Definition running_min (l : list pyfloat) : list pyfloat :=
  foldr (fun x acc => match acc with [] => [x] | m :: _ => fmin x m :: acc end) [] l.

Definition fdr_bh_correction (pvals : list pyfloat) : list pyfloat :=
  let n := Z.of_nat (length pvals) in
  let ranked := sort_values snd true (imap (fun i p => (i, p)) pvals) in
  let adjusted :=
    imap (fun i p => fdiv (fmul p (Num (inject_Z n))) (Num (inject_Z (Z.of_nat (S i)))))
         ranked.*2 in
  let corrected := zip ranked.*1 (clip01 <$> running_min adjusted) in
  imap (fun i _ => default NaN ((fun e => e.2.2) <$> list_find (fun e => e.1 = i) corrected))
       pvals.

Definition multipletests_fdr_bh (pvals : list pyfloat) : result (list pyfloat) :=
  match pvals with
  | [] => Err ZeroDivisionError
  | _ => Ok (fdr_bh_correction pvals)
  end.

(** ** Python strings as objects *)

(** A string object: its text, and whether it is the interned object of that
    text.  The string literals of a program are interned, a default argument
    among them; a string made at run time (read from a file, joined from
    parts) in general is not. *)
Record pystr : Type := {
  text : string;
  interned : bool
}.

Definition literal (s : string) : pystr := {| text := s; interned := true |}.

(** [x is 'literal']: the same object as the interned literal. *)
Definition is_literal (x : pystr) (s : string) : bool :=
  interned x && String.eqb (text x) s.

(** ** compute_against_reference *)

(** What the engine takes from outside: [information_coefficient] of
    [ccal.information], [stats.norm.ppf], [Series.std] and [math.sqrt]; and the
    order in which the interpreter iterates a set of strings, which follows
    their hashes and so changes with the hash seed of the process: some order
    of the elements, each once. *)
Class Externals : Type := {
  information_coefficient : list pyfloat -> list pyfloat -> pyfloat;
  norm_ppf : Q -> pyfloat;
  series_std : list pyfloat -> pyfloat;
  math_sqrt : Z -> pyfloat;
  set_iteration : gset string -> list string;
  set_iteration_elements : forall s, set_iteration s ≡ₚ elements s
}.

Section Engine.

Context {externals : Externals}.

Definition metric_fn : Type := list pyfloat -> list pyfloat -> pyfloat.

(** Lines 287-291: [metric is 'information_coef'] tests identity, not
    equality of the texts. *)
Definition metric_function (metric : pystr) : result metric_fn :=
  if is_literal metric "information_coef" then Ok information_coefficient
  else Err ValueError_unknown_metric.

(** Lines 294-300: one score for each row, sorted by value. *)
Definition compute_scores (function : metric_fn) (features : DataFrame) (ref : Series)
  : list (string * pyfloat) :=
  sort_values snd true (map (fun r => (r.1, function r.2 ref.*2)) (rows features)).

(** Line 303: [math.ceil(0.632 * features.shape[1])]. *)
Definition nsample (features : DataFrame) : Z :=
  Qceiling ((632 # 1000) * inject_Z (Z.of_nat (length (columns features)))).

(** Lines 325-329: one replicate; the score stored under each label. *)
Definition bootstrap_replicate (function : metric_fn) (features : DataFrame)
    (ref : Series) (indices_to_bootstrap : list string) : M (list (string * pyfloat)) :=
  sample_indices ← random_choice (columns features) (Z.to_nat (nsample features));
  let sampled_ref := (series_take ref sample_indices).*2 in
  mret (map (fun r => (r.1, function (row_take (columns features) r.2 sample_indices)
                                     sampled_ref))
            (take_rows features indices_to_bootstrap)).

Fixpoint repeat_m {A} (n : nat) (m : M A) : M (list A) :=
  match n with
  | O => mret []
  | S n' => x ← m; rest ← repeat_m n' m; mret (x :: rest)
  end.

(** Lines 302-338. *)
Definition bootstrap (function : metric_fn) (features : DataFrame) (ref : Series)
    (scores : list (string * pyfloat)) (nfeatures : number) (nsampling : Z)
    (confidence : Q) : M bootstrapped :=
  if nsampling <? 2 then mret (None, map (fun r => (r.1, r.2, NaN)) scores)
  else if nsample features <? 3 then mret (None, map (fun r => (r.1, r.2, NaN)) scores)
  else
    indices_to_bootstrap ← lift (select_indices scores nfeatures);
    replicates ← repeat_m (Z.to_nat nsampling)
                   (bootstrap_replicate function features ref indices_to_bootstrap);
    let sampled_scores :=
      map (fun idx => (idx, map (last_at idx) replicates)) indices_to_bootstrap in
    let z_critical := norm_ppf confidence in
    let moes :=
      map (fun s => (s.1, fmul z_critical
                            (fdiv (series_std s.2) (math_sqrt (Z.of_nat (length s.2))))))
          sampled_scores in
    let confidence_intervals :=
      map (fun idx => (idx, last_at idx moes)) indices_to_bootstrap in
    mret (Some confidence, merge_outer scores confidence_intervals).

(** Lines 345-347: the reference is shuffled in place, once for each
    permutation, each time starting from the previous order. *)
Fixpoint shuffles (n : nat) (shuffled_ref : list pyfloat) : M (list (list pyfloat)) :=
  match n with
  | O => mret []
  | S n' =>
      shuffled ← random_shuffle shuffled_ref;
      rest ← shuffles n' shuffled;
      mret (shuffled :: rest)
  end.

(** Lines 344-349: [permutation_scores[j, i]] is the score of row [j] against
    the [i]-th shuffle. *)
Definition permutation_scores (function : metric_fn) (features : DataFrame)
    (ref : Series) (nperm : Z) : M (list (list pyfloat)) :=
  if nperm <? 0 then raise ValueError_negative_dimensions
  else
    perms ← shuffles (Z.to_nat nperm) ref.*2;
    mret (map (fun r => map (fun shuffled_ref => function r.2 shuffled_ref) perms)
              (rows features)).

(** The frame [permutation_pvals_and_fdrs]: for each label of
    [features.index] the local and the global p-value, NaN until set. *)
Definition pvals_frame : Type := list (string * (pyfloat * pyfloat)).

(** Lines 341-342: the frame before the loop. *)
Definition empty_frame (features : DataFrame) : pvals_frame :=
  map (fun l => (l, (NaN, NaN))) (index features).

(** [frame.ix[idx, ...] = v]: every row labelled [idx] is set. *)
Definition set_pvals (idx : string) (v : pyfloat * pyfloat) (frame : pvals_frame)
  : pvals_frame :=
  map (fun e => if decide (e.1 = idx) then (e.1, v) else e) frame.

(** Lines 354-356 and 359-361: the fraction, or [1 / total] when it is 0. *)
Definition pvalue (count total : Z) : result pyfloat :=
  p ← true_div count total;
  if is_zero p then true_div 1 total else mret p.

(** Lines 353-362, row [i] of the table being scored. *)
Definition pvals_step (null_scores : list (list pyfloat)) (nperm nrows : Z)
    (i : nat) (f : string * pyfloat * pyfloat) (frame : pvals_frame)
  : result pvals_frame :=
  nulls ← from_option Ok (Err IndexError) (null_scores !! i);
  local_pval ← pvalue (count_exceeding nulls f.1.2) nperm;
  global_pval ← pvalue (count_exceeding (concat null_scores) f.1.2) (nperm * nrows);
  mret (set_pvals f.1.1 (local_pval, global_pval) frame).

Fixpoint pvals_loop (null_scores : list (list pyfloat)) (nperm nrows : Z) (i : nat)
    (scores : list (string * pyfloat * pyfloat)) (frame : pvals_frame)
  : result pvals_frame :=
  match scores with
  | [] => mret frame
  | f :: scores' =>
      frame' ← pvals_step null_scores nperm nrows i f frame;
      pvals_loop null_scores nperm nrows (S i) scores' frame'
  end.

(** Line 366: the inner join of the scores with the p-value frame, the rows
    in the order of the scores.  The sort of line 368 follows, so this order
    shows in the returned table only among rows of equal metric value. *)
Definition merge_pvals (scores : list (string * pyfloat * pyfloat))
    (frame : list (string * (pyfloat * pyfloat) * pyfloat)) : list score_row :=
  flat_map (fun r =>
      map (fun e => {| feature := r.1.1; metric_value := r.1.2;
                       margin_of_error := r.2;
                       local_pvalue := e.1.2.1; global_pvalue := e.1.2.2;
                       fdr_bh := e.2 |})
          (filter (fun e => e.1.1 = r.1.1) frame))
    scores.

Definition compute_against_reference (features : DataFrame) (ref : Series)
    (metric : pystr) (nfeatures : number) (ascending : bool) (nsampling : Z)
    (confidence : Q) (nperm : Z) : M score_table :=
  function ← lift (metric_function metric);
  let scores := compute_scores function features ref in
  boot ← bootstrap function features ref scores nfeatures nsampling confidence;
  null_scores ← permutation_scores function features ref nperm;
  frame ← lift (pvals_loop null_scores nperm (Z.of_nat (length (rows features))) 0
                  boot.2 (empty_frame features));
  fdrs ← lift (multipletests_fdr_bh (map (fun e => e.2.2) frame));
  mret {| moe_column := boot.1;
          table_rows := sort_values metric_value ascending
                          (merge_pvals boot.2 (zip frame fdrs)) |}.

(** *** rank_features_against_reference *)

(** Line 225: the rows with a value that is not 0. *)
Definition drop_zero_rows (df : DataFrame) : DataFrame :=
  {| columns := columns df;
     rows := filter (fun r => existsb (fun x => fne x (Num 0)) r.2) (rows df) |}.

(** Line 214. *)
Definition col_intersection (features : DataFrame) (ref : Series) : gset string :=
  list_to_set (columns features) ∩ list_to_set ref.*1.

(** Lines 213-230: what is handed to the scoring.  Indexing with a Python
    set takes its labels in the order the set iterates. *)
Definition prepare_inputs (features : DataFrame) (ref : Series)
    (ref_sort ref_ascending : bool) : result (DataFrame * Series) :=
  let common := col_intersection features ref in
  if decide (common = ∅) then Err ValueError_no_intersection
  else
    let features := take_columns features (set_iteration common) in
    let ref := series_take ref (set_iteration common) in
    let features := drop_zero_rows features in
    if ref_sort then
      let ref := sort_values snd ref_ascending ref in
      mret (take_columns features ref.*1, ref)
    else mret (features, ref).

(** What the function hands to the result file and to the plot; the text of
    the annotations is left out. *)
Record ranking : Type := {
  scores_table : score_table;
  indices_to_plot : list string
}.

Definition rank_features_against_reference (features : DataFrame) (ref : Series)
    (features_ascending ref_ascending ref_sort : bool) (metric : pystr)
    (n_features : number) (n_samplings : Z) (confidence : Q) (n_perms : Z)
  : M ranking :=
  inputs ← lift (prepare_inputs features ref ref_sort ref_ascending);
  scores ← compute_against_reference inputs.1 inputs.2 metric n_features
              features_ascending n_samplings confidence n_perms;
  indices_to_plot ←
    lift (select_indices (map (fun r => (feature r, metric_value r)) (table_rows scores))
                         n_features);
  mret {| scores_table := scores; indices_to_plot := indices_to_plot |}.

End Engine.

(** ** Consensus of factorizations and of clusterings (lines 35-175)

    [nmf], [nmf_and_score] and [get_states_from_h].  The matrix to factorize is
    a DataFrame; the labels that [nmf] puts on W and H are left out, the
    callers here read the values only.  Samples are named by their position. *)

Inductive consensus_exn : Type :=
| ValueError_unknown_method      (* 'Unknown method {}.' *)
| ValueError_n_states            (* 'Invalid value passed to n_states.' *)
| ValueError_negative_shape      (* numpy: np.empty with a negative dimension *)
| KeyError
| LibraryError.                  (* raised inside sklearn or scipy *)

Inductive attempt (A : Type) : Type :=
| Done (a : A)
| Raised (e : consensus_exn).
Arguments Done {A} a.
Arguments Raised {A} e.

#[global] Instance attempt_ret : MRet attempt := fun A a => Done a.

#[global] Instance attempt_bind : MBind attempt := fun A B k r =>
  match r with
  | Done a => k a
  | Raised e => Raised e
  end.

Fixpoint attempt_all {A} (l : list (attempt A)) : attempt (list A) :=
  match l with
  | [] => mret []
  | r :: l' => a ← r; rest ← attempt_all l'; mret (a :: rest)
  end.

(** [{'W': w, 'H': h, 'ERROR': err}] *)
Record nmf_result : Type := {
  W : list (list pyfloat);
  H : list (list pyfloat);
  ERROR : pyfloat
}.

(** The libraries and modules behind the consensus.  [sklearn_nmf matrix k seed]
    is the fit of [NMF(n_components=k, random_state=seed, ...)] with the other
    arguments at their defaults; with an int [random_state] the fit is a
    function of its arguments.  [SEED] is the constant of [ccal.support]. *)
Class Clusterers : Type := {
  SEED : Z;
  sklearn_nmf : DataFrame -> Z -> Z -> attempt nmf_result;
  np_argmax_columns : list (list pyfloat) -> list Z;        (* np.argmax(h, axis=0) *)
  cophenet_average : list (list pyfloat) -> attempt pyfloat;
    (* cophenet(linkage(m, 'average'), pdist(m))[0] *)
  sample_associations : DataFrame -> pyfloat -> attempt (list (list pyfloat));
    (* compare_matrices of the standardized, clipped H with itself *)
  agglomerative_labels : list (list pyfloat) -> Z -> attempt (list Z);
    (* AgglomerativeClustering(n_clusters=k).fit(...).labels_ *)
  ward_fcluster : list (list pyfloat) -> Z -> attempt (list Z);
    (* fcluster(linkage(d, 'ward'), k, criterion='maxclust') *)
  cophenet_ward : list (list pyfloat) -> attempt pyfloat
    (* cophenet(linkage(d, 'ward'), pdist(d))[0] *)
}.

(** [ks] is an int or an iterable of ints. *)
Inductive ks_arg : Type :=
| One (k : Z)
| Many (ks : list Z).

(** Python's [x - y] on floats. *)
Definition fsub (x y : pyfloat) : pyfloat :=
  match x, y with
  | Num p, Num q => Num (p - q)
  | _, _ => NaN
  end.

(** Lines 62-67: for [j >= i], the runs that put columns [i] and [j] in the
    same component; the entries below the diagonal stay 0. *)
Definition agreements (assignment_matrix : list (list Z)) (i j : nat) : Z :=
  Z.of_nat (length (filter (fun row => row !! i = row !! j) assignment_matrix)).

Definition assignment_distance_matrix (assignment_matrix : list (list Z)) (ncols : nat)
  : list (list Z) :=
  map (fun i =>
         map (fun j => if (i <=? j)%nat then agreements assignment_matrix i j else 0)
             (seq 0 ncols))
      (seq 0 ncols).

(** Line 68. *)
Definition normalized_assignment_distance_matrix (assignment_matrix : list (list Z))
    (ncols : nat) (n_assignments : Z) : list (list pyfloat) :=
  map (map (fun c => fdiv (Num (inject_Z c)) (Num (inject_Z n_assignments))))
      (assignment_distance_matrix assignment_matrix ncols).

(** Lines 147-156: the clusterings that put samples [i] and [j] together, and
    the distance [1 - count / n_clusterings]. *)
Definition coclusterings (labels : list (list Z)) (i j : nat) : Z :=
  Z.of_nat (length (filter (fun s => i = j \/ s !! i = s !! j) labels)).

Definition coclustering_distances (labels : list (list Z)) (nsamples : nat)
    (n_clusterings : Z) : list (list pyfloat) :=
  map (fun i =>
         map (fun j => fsub (Num 1)
                         (fdiv (Num (inject_Z (coclusterings labels i j)))
                               (Num (inject_Z n_clusterings))))
             (seq 0 nsamples))
      (seq 0 nsamples).

Section Consensus.

Context {clusterers : Clusterers}.

(** Lines 82-111. *)
Fixpoint nmf_loop (matrix : DataFrame) (seed : Z) (ks : list Z)
    (nmf_results : gmap Z nmf_result) : attempt (gmap Z nmf_result) :=
  match ks with
  | [] => mret nmf_results
  | k :: ks' =>
      fit ← sklearn_nmf matrix k seed;
      nmf_loop matrix seed ks' (<[k := fit]> nmf_results)
  end.

Definition nmf (matrix : DataFrame) (ks : ks_arg) (seed : Z) : attempt (gmap Z nmf_result) :=
  let ks := match ks with One k => [k] | Many ks => ks end in
  nmf_loop matrix seed ks ∅.

(** Lines 52-59: the runs for one [k]; each is [nmf(matrix, k)[k]]. *)
Definition nmf_runs (matrix : DataFrame) (k : Z) (n_assignments : Z)
  : attempt (list nmf_result) :=
  attempt_all
    (map (fun i => nmf_results ← nmf matrix (One k) SEED;
                   match nmf_results !! k with
                   | Some nmf_result => Done nmf_result
                   | None => Raised KeyError
                   end)
         (seq 0 (Z.to_nat n_assignments))).

(** Lines 47-75, one [k]. *)
Definition nmf_and_score_step (matrix : DataFrame) (n_assignments : Z) (k : Z)
    (acc : gmap Z nmf_result * gmap Z pyfloat)
  : attempt (gmap Z nmf_result * gmap Z pyfloat) :=
  if n_assignments <? 0 then Raised ValueError_negative_shape
  else
    runs ← nmf_runs matrix k n_assignments;
    let nmf_results :=
      match runs with
      | first :: _ => <[k := first]> acc.1
      | [] => acc.1
      end in
    let assignment_matrix := map (fun r => np_argmax_columns (H r)) runs in
    score ← cophenet_average
              (normalized_assignment_distance_matrix assignment_matrix
                 (length (columns matrix)) n_assignments);
    mret (nmf_results, <[k := score]> acc.2).

Fixpoint nmf_and_score_loop (matrix : DataFrame) (n_assignments : Z) (ks : list Z)
    (acc : gmap Z nmf_result * gmap Z pyfloat)
  : attempt (gmap Z nmf_result * gmap Z pyfloat) :=
  match ks with
  | [] => mret acc
  | k :: ks' =>
      acc' ← nmf_and_score_step matrix n_assignments k acc;
      nmf_and_score_loop matrix n_assignments ks' acc'
  end.

(** Lines 35-79. *)
Definition nmf_and_score (matrix : DataFrame) (ks : list Z) (method : string)
    (n_assignments : Z) : attempt (gmap Z nmf_result * gmap Z pyfloat) :=
  if String.eqb method "cophenetic_correlation"
  then nmf_and_score_loop matrix n_assignments ks (∅, ∅)
  else Raised ValueError_unknown_method.

(** [any(n_states)] *)
Definition any_nonzero (n_states : list Z) : bool := existsb (fun k => negb (k =? 0)) n_states.

(** Lines 137-164, one [k]: the labels and the cophenetic correlation. *)
Definition states_for (associations : list (list pyfloat)) (nsamples : nat)
    (n_clusterings : Z) (k : Z) : attempt (list Z * pyfloat) :=
  n_clusterings_labels ←
    attempt_all (map (fun i => agglomerative_labels associations k)
                     (seq 0 (Z.to_nat n_clusterings)));
  let distances := coclustering_distances n_clusterings_labels nsamples n_clusterings in
  labels_ ← ward_fcluster distances k;
  cophenetic_correlation ← cophenet_ward distances;
  mret (labels_, cophenetic_correlation).

(** Line 167: a sample is a member of state [k] when its label is [k]. *)
Definition membership (k : Z) (labels_ : list Z) : list Z :=
  map (fun label => if label =? k then 1 else 0) labels_.

(** Lines 114-175: for each [k] its labels, its cophenetic correlation and its
    memberships. *)
Definition get_states_from_h (h : DataFrame) (n_states : list Z) (max_std : pyfloat)
    (n_clusterings : Z) : attempt (list (Z * list Z) * list (Z * pyfloat) * list (Z * list Z)) :=
  associations ← sample_associations h max_std;
  if any_nonzero n_states then
    states ← attempt_all
               (map (fun k => r ← states_for associations (length associations)
                                    n_clusterings k;
                              mret (k, r))
                    n_states);
    mret (map (fun s => (s.1, s.2.1)) states,
          map (fun s => (s.1, s.2.2)) states,
          map (fun s => (s.1, membership s.1 s.2.1)) states)
  else Raised ValueError_n_states.

End Consensus.

(** ** The notions the properties are stated with *)

(** A computation that never raises. *)
Definition total {A} (m : M A) : Prop := forall g, exists a g1, m g = Ok (a, g1).

(** The pair of p-values the loop computes for the row at position [i] of
    the table: the null scores come from row [i] of [permutation_scores]. *)
Definition scored_at (null_scores : list (list pyfloat)) (nperm nrows : Z) (i : nat)
    (f : string * pyfloat * pyfloat) (v : pyfloat * pyfloat) : Prop :=
  exists nulls,
    null_scores !! i = Some nulls /\
    pvalue (count_exceeding nulls f.1.2) nperm = Ok v.1 /\
    pvalue (count_exceeding (concat null_scores) f.1.2) (nperm * nrows) = Ok v.2.

(** The exceptions that [compute_against_reference] and the selection raise. *)
Definition scoring_error (e : exn) : Prop := e <> ValueError_no_intersection.

(** The thresholds under which no label is selected twice on a table of
    [nrows] rows. *)
Definition selects_once (nrows : nat) (nfeatures : number) : Prop :=
  match nfeatures with
  | Int n => (2 * Z.to_nat n <= nrows)%nat
  | Float _ => True
  end.

(** Two generator states with the same draws ahead. *)
Definition same_draws (g1 g2 : rng) : Prop := forall k, g1 k = g2 k.

(** Two outcomes that agree: the same value and generator states with the same
    draws ahead, or the same exception. *)
Definition agree {A} (r1 r2 : result (A * rng)) : Prop :=
  match r1, r2 with
  | Ok (a1, g1), Ok (a2, g2) => a1 = a2 /\ same_draws g1 g2
  | Err e1, Err e2 => e1 = e2
  | _, _ => False
  end.

(** The generator after [n] draws. *)
Definition advance (n : nat) (g : rng) : rng := fun k => g (n + k)%nat.

(** Two generator states whose next [n] raw values are the same. *)
Definition same_next (n : nat) (g1 g2 : rng) : Prop :=
  forall k, (k < n)%nat -> g1 k = g2 k.

(** A computation that takes the next [n] raw values of the generator and
    nothing else of it: from two states with the same next [n] values it
    returns the same value, leaving each state [n] values further, or raises
    the same exception. *)
Definition takes {A} (n : nat) (m : M A) : Prop :=
  forall g1 g2, same_next n g1 g2 ->
    match m g1, m g2 with
    | Ok (a1, h1), Ok (a2, h2) =>
        a1 = a2 /\ same_draws h1 (advance n g1) /\ same_draws h2 (advance n g2)
    | Err e1, Err e2 => e1 = e2
    | _, _ => False
    end.

(** A computation that has made exactly [n] draws when it returns. *)
Definition draws {A} (n : nat) (m : M A) : Prop :=
  forall g a g1, m g = Ok (a, g1) -> same_draws g1 (advance n g).

(** The draws of the bootstrap and of the permutations of one run. *)
Definition bootstrap_draws (features : DataFrame) (nsampling : Z) : nat :=
  if (nsampling <? 2) || (nsample features <? 3) then 0%nat
  else (Z.to_nat nsampling * Z.to_nat (nsample features))%nat.

Definition permutation_draws (ref : Series) (nperm : Z) : nat :=
  (Z.to_nat nperm * (length ref - 1))%nat.

(** [(row != 0).any()]: the row has a value that is not 0; NaN counts. *)
Definition has_nonzero (vals : list pyfloat) : bool :=
  existsb (fun x => fne x (Num 0)) vals.

(** ** Concrete inputs

    An instance of the external functions for running the model: the metric is
    the dot product of the two vectors; the statistical functions have no value
    (the runs below that reach them do not look at the margins of error); a
    set is iterated in the order of its elements. *)
Definition fadd (x y : pyfloat) : pyfloat :=
  match x, y with
  | Num p, Num q => Num (Qred (p + q))
  | _, _ => NaN
  end.

Definition dot_product (x y : list pyfloat) : pyfloat :=
  foldr (fun p acc => fadd (fmul p.1 p.2) acc) (Num 0) (zip x y).

Definition dot_product_externals : Externals := {|
  information_coefficient := dot_product;
  norm_ppf := fun _ => NaN;
  series_std := fun _ => NaN;
  math_sqrt := fun _ => NaN;
  set_iteration := elements;
  set_iteration_elements := fun s => Permutation_refl (elements s)
|}.

(** A generator whose raw values count up from its seed. *)
Definition counter_stream (s : Z) : rng := fun k => (Z.to_nat s + k)%nat.

(** Two features over three samples; feature A scores 2, feature B scores 0. *)
Definition two_features : DataFrame := {|
  columns := ["s1"; "s2"; "s3"];
  rows := [("A", [Num 0; Num 0; Num 1]); ("B", [Num 1; Num 0; Num 0])]
|}.

Definition three_samples : Series := [("s1", Num 0); ("s2", Num 1); ("s3", Num 2)].

(** A third feature with a NaN measurement: its dot product is NaN. *)
Definition three_features : DataFrame := {|
  columns := ["s1"; "s2"; "s3"];
  rows := [("A", [Num 0; Num 0; Num 1]); ("B", [Num 1; Num 0; Num 0]);
           ("C", [NaN; Num 1; Num 0])]
|}.

(** Three features over four samples, the smallest number of samples that is
    bootstrapped, and their reference. *)
Definition four_sample_features : DataFrame := {|
  columns := ["s1"; "s2"; "s3"; "s4"];
  rows := [("A", [Num 0; Num 0; Num 1; Num 1]); ("B", [Num 1; Num 0; Num 0; Num 2]);
           ("C", [Num 1; Num 1; Num 0; Num 0])]
|}.

Definition four_samples : Series :=
  [("s1", Num 0); ("s2", Num 1); ("s3", Num 2); ("s4", Num 3)].

(** A matrix with columns and no rows. *)
Definition no_features : DataFrame := {| columns := ["s1"; "s2"; "s3"]; rows := [] |}.

(** A reference that shares the samples s2 and s3 with [two_features]. *)
Definition other_samples : Series := [("s3", Num 1); ("s2", Num 5); ("s9", Num 0)].

(** The run on a feature matrix and [three_samples] with the default
    threshold, bootstrapping off and two permutations. *)
Definition two_permutations (features : DataFrame) : M score_table :=
  @compute_against_reference dot_product_externals features three_samples
    (literal "information_coef") (Float (95 # 100)) false 0 (95 # 100) 2.

(** The two features of [two_features] in ascending order of their scores. *)
Definition ascending_features : DataFrame := {|
  columns := ["s1"; "s2"; "s3"];
  rows := [("B", [Num 1; Num 0; Num 0]); ("A", [Num 0; Num 0; Num 1])]
|}.

(** An instance of the clustering libraries for running the consensus: every
    fit has two components over three columns, whose first and third columns
    go to the first component; every clustering puts the first and the third
    sample together. *)
Definition two_states : Clusterers := {|
  SEED := 20121020;
  sklearn_nmf := fun _ _ _ =>
    Done {| W := [[Num 1; Num 0]; [Num 0; Num 1]];
            H := [[Num 1; Num 0; Num 1]; [Num 0; Num 1; Num 0]];
            ERROR := Num 0 |};
  np_argmax_columns := fun _ => [0; 1; 0];
  cophenet_average := fun _ => Done (Num 1);
  sample_associations := fun _ _ =>
    Done [[Num 1; Num 0; Num 1]; [Num 0; Num 1; Num 0]; [Num 1; Num 0; Num 1]];
  agglomerative_labels := fun _ _ => Done [0; 1; 0];
  ward_fcluster := fun _ _ => Done [1; 2; 1];
  cophenet_ward := fun _ => Done (Num 1)
|}.

(** * Properties *)

(** ** Sorting *)

Lemma Qle_bool_total (p q : Q) : Qle_bool p q = true \/ Qle_bool q p = true.
Proof.
  destruct (Qlt_le_dec q p) as [H | H].
  - right. apply Qle_bool_iff, Qlt_le_weak, H.
  - left. apply Qle_bool_iff, H.
Qed.

Lemma precedes_total ascending (x y : pyfloat) :
  precedes ascending x y = true \/ precedes ascending y x = true.
Proof.
  destruct x as [p|], y as [q|]; simpl; auto.
  destruct ascending; [apply Qle_bool_total | destruct (Qle_bool_total p q); auto].
Qed.

#[global] Instance by_value_total {A} (key : A -> pyfloat) ascending :
  Total (by_value key ascending).
Proof.
  intros x y. unfold by_value.
  destruct (precedes_total ascending (key x) (key y)) as [-> | ->]; [left | right]; done.
Qed.

Lemma precedes_trans ascending (x y z : pyfloat) :
  precedes ascending x y = true -> precedes ascending y z = true ->
  precedes ascending x z = true.
Proof.
  destruct x as [p|], y as [q|], z as [r|]; simpl; try done.
  destruct ascending; rewrite !Qle_bool_iff; intros H1 H2.
  - by apply (Qle_trans _ q).
  - by apply (Qle_trans _ q).
Qed.

#[global] Instance by_value_trans {A} (key : A -> pyfloat) ascending :
  Transitive (by_value key ascending).
Proof.
  intros x y z. unfold by_value. rewrite !Is_true_true. apply precedes_trans.
Qed.

Lemma insert_by_perm {A} (R : relation A) `{!RelDecision R} (x : A) (l : list A) :
  insert_by R x l ≡ₚ x :: l.
Proof.
  induction l as [|y l IH]; [done|]. simpl.
  destruct (decide (R x y)); [done|]. rewrite IH. apply Permutation_swap.
Qed.

Lemma stable_sort_perm {A} (R : relation A) `{!RelDecision R} (l : list A) :
  stable_sort R l ≡ₚ l.
Proof.
  induction l as [|x l IH]; [done|].
  unfold stable_sort. simpl. rewrite insert_by_perm. by constructor.
Qed.

Lemma insert_by_sorted {A} (R : relation A) `{!RelDecision R} {HR : Total R} (x : A)
    (l : list A) :
  Sorted R l -> Sorted R (insert_by R x l).
Proof.
  induction 1 as [|y l Hl IH Hy]; simpl; [by repeat constructor|].
  destruct (decide (R x y)) as [Hxy|Hxy].
  - constructor; [by constructor | by constructor].
  - constructor; [exact IH|].
    destruct l as [|z l]; simpl.
    + constructor. by destruct (HR x y).
    + destruct (decide (R x z)).
      * constructor. by destruct (HR x y).
      * constructor. by inversion Hy.
Qed.

Lemma stable_sort_sorted {A} (R : relation A) `{!RelDecision R} `{!Total R} (l : list A) :
  Sorted R (stable_sort R l).
Proof.
  induction l as [|x l IH]; [constructor|].
  unfold stable_sort. simpl. by apply insert_by_sorted.
Qed.

(** The sort leaves a list alone that is in order with no two neighbours
    comparing both ways round, and in general keeps equal elements in their
    order: it inserts each element before the first one it may precede. *)
Lemma stable_sort_sorted_id {A} (R : relation A) `{!RelDecision R} (l : list A) :
  Sorted R l -> stable_sort R l = l.
Proof.
  induction 1 as [|x l Hl IH Hx]; [done|].
  unfold stable_sort in *. simpl. rewrite IH.
  destruct Hx as [|y l Hxy]; simpl; [done|].
  by destruct (decide (R x y)).
Qed.

Lemma sort_values_perm {A} (key : A -> pyfloat) ascending (l : list A) :
  sort_values key ascending l ≡ₚ l.
Proof. apply stable_sort_perm. Qed.

Lemma sort_values_sorted {A} (key : A -> pyfloat) ascending (l : list A) :
  Sorted (by_value key ascending) (sort_values key ascending l).
Proof. apply stable_sort_sorted, _. Qed.

Lemma sort_index_perm {A} (l : list (string * A)) : sort_index l ≡ₚ l.
Proof. apply stable_sort_perm. Qed.

Lemma join_order_perm scores confidence_intervals :
  join_order scores confidence_intervals ≡ₚ scores.
Proof. unfold join_order. destruct (decide _); [done | apply sort_index_perm]. Qed.

(** ** The selection by count *)

Lemma slice_head_length {A} (n : Z) (l : list A) :
  length (slice_head n l) = (Z.to_nat n `min` length l)%nat.
Proof. unfold slice_head. apply length_take. Qed.

Lemma slice_tail_length {A} (n : Z) (l : list A) :
  length (slice_tail n l) = (Z.to_nat n `min` length l)%nat.
Proof. unfold slice_tail. rewrite length_drop. lia. Qed.

Lemma select_indices_count (scores : list (string * pyfloat)) (n : Z) :
  1 <= n ->
  select_indices scores (Int n) = Ok (slice_head n scores.*1 ++ slice_tail n scores.*1).
Proof.
  intros Hn. unfold select_indices, lt_one. simpl.
  assert (Qle_bool 1 (inject_Z n) = true) as ->; [|done].
  apply Qle_bool_iff. change 1%Q with (inject_Z 1). rewrite <- Zle_Qle. done.
Qed.

Lemma slices_disjoint {A} (n : Z) (l : list A) :
  0 <= n -> (2 * Z.to_nat n <= length l)%nat -> NoDup l ->
  NoDup (slice_head n l ++ slice_tail n l).
Proof.
  intros Hn Hlen Hnd. unfold slice_head, slice_tail.
  rewrite <- (take_drop (Z.to_nat n) l) in Hnd.
  rewrite <- (take_drop (length l - 2 * Z.to_nat n) (drop (Z.to_nat n) l)) in Hnd.
  rewrite drop_drop in Hnd.
  replace (Z.to_nat n + (length l - 2 * Z.to_nat n))%nat
    with (length l - Z.to_nat n)%nat in Hnd by lia.
  apply NoDup_app in Hnd as (H1 & H2 & H3).
  apply NoDup_app in H3 as (H3 & H4 & H5).
  apply NoDup_app. split_and!; [done| |done].
  intros x Hx Hx'. apply (H2 x Hx). apply elem_of_app. by right.
Qed.

Lemma size_list_to_set_le (l : list string) :
  (size (list_to_set l : gset string) <= length l)%nat.
Proof.
  induction l as [|x l IH]; simpl.
  - done.
  - etrans; [apply Nat.eq_le_incl, size_union_alt|].
    rewrite size_singleton.
    assert (size (list_to_set l ∖ {[x]} : gset string) <= size (list_to_set l : gset string))%nat.
    { apply subseteq_size, subseteq_difference_l. done. }
    lia.
Qed.

Lemma size_list_to_set_subseteq (l k : list string) :
  l ⊆ k -> (size (list_to_set l : gset string) <= length k)%nat.
Proof.
  intros Hsub. etrans; [|apply (size_list_to_set_le k)].
  apply subseteq_size. set_solver.
Qed.

(** ** The selection by quantile *)

Lemma valid_sorted_nil (vals : list pyfloat) :
  valid_sorted vals = [] -> forall x, x ∈ vals -> x = NaN.
Proof.
  unfold valid_sorted. intros Hnil x Hx.
  rewrite <- (sort_values_perm id true vals) in Hx.
  induction (sort_values id true vals) as [|y l IH]; [by apply elem_of_nil in Hx|].
  simpl in Hnil. destruct y as [q|]; simpl in Hnil.
  - destruct (omap to_Q l); discriminate.
  - apply elem_of_cons in Hx as [-> | Hx]; [done | by apply IH].
Qed.

Lemma quantile_half_cases (vals : list pyfloat) :
  (quantile vals (1 # 2) = Ok NaN /\ forall x, x ∈ vals -> x = NaN) \/
  (exists m, quantile vals (1 # 2) = Ok (Num m)).
Proof.
  unfold quantile.
  change (negb (Qle_bool 0 (1 # 2) && Qle_bool (1 # 2) 1)) with false. cbv iota.
  destruct (valid_sorted vals) as [|v0 v] eqn:Hv.
  - left. split; [done | by apply valid_sorted_nil].
  - right. eexists. reflexivity.
Qed.

Lemma filter_agree {A} (P Q : A -> Prop) `{!forall x, Decision (P x)}
    `{!forall x, Decision (Q x)} (l : list A) :
  (forall x, x ∈ l -> P x <-> Q x) -> filter P l = filter Q l.
Proof.
  induction l as [|x l IH]; intros Hiff; [done|].
  rewrite !filter_cons.
  rewrite IH by (intros y Hy; apply Hiff; by right).
  destruct (decide (P x)) as [HP | HP], (decide (Q x)) as [HQ | HQ]; try done.
  - exfalso. apply HQ, Hiff; [by left | done].
  - exfalso. apply HP, Hiff; [by left | done].
Qed.

(** C6, as the code has it. With the threshold 0.5 the selection by quantile is
    the features whose metric value is a number, in the order of the table; a
    feature whose metric value is NaN is never selected. *)
Theorem select_indices_half_is_all_numbers (scores : list (string * pyfloat)) :
  select_indices scores (Float (1 # 2)) =
  Ok (filter (fun r => negb (isnan r.2)) scores).*1.
Proof.
  unfold select_indices.
  change (lt_one (Float (1 # 2))) with true. cbv iota.
  change (number_value (Float (1 # 2))) with (1 # 2)%Q.
  change (1 - (1 # 2))%Q with (1 # 2)%Q.
  destruct (quantile_half_cases scores.*2) as [[-> Hnan] | [m ->]]; simpl.
  - do 2 f_equal. apply filter_agree. intros [k v] Hin. simpl.
    rewrite (Hnan v); [done|].
    apply list_elem_of_fmap. by exists (k, v).
  - do 2 f_equal. apply filter_agree. intros [k [q|]] _; simpl; [|done].
    destruct (Qle_bool_total m q) as [-> | ->]; simpl; [done|].
    by rewrite orb_true_r.
Qed.

(** C6, as the spec states it, fails on a table with a NaN score: feature "b"
    is in the table and is not selected. *)
Lemma select_indices_half_misses_nan :
  let table := [("a", Num 1); ("b", NaN); ("c", Num 3)]%string in
  "b"%string ∈ table.*1 /\
  exists sel, select_indices table (Float (1 # 2)) = Ok sel /\ "b"%string ∉ sel.
Proof.
  split.
  - simpl. set_solver.
  - exists ["a"; "c"]%string. split; [reflexivity|].
    intros H. repeat (apply elem_of_cons in H as [H | H]; [discriminate|]).
    by apply elem_of_nil in H.
Qed.

(** ** The computation monad *)

Lemma bind_Ok {A B} (m : M A) (k : A -> M B) g b g2 :
  (m ≫= k) g = Ok (b, g2) ->
  exists a g1, m g = Ok (a, g1) /\ k a g1 = Ok (b, g2).
Proof.
  unfold mbind, M_bind. destruct (m g) as [[a g1]|e]; [|discriminate].
  intros H. by exists a, g1.
Qed.

Lemma bind_Err {A B} (m : M A) (k : A -> M B) g e :
  (m ≫= k) g = Err e ->
  m g = Err e \/ exists a g1, m g = Ok (a, g1) /\ k a g1 = Err e.
Proof.
  unfold mbind, M_bind. destruct (m g) as [[a g1]|e']; intros H.
  - right. by exists a, g1.
  - left. by simplify_eq.
Qed.

Lemma bind_eq_Ok {A B} (m : M A) (k : A -> M B) g a g1 :
  m g = Ok (a, g1) -> (m ≫= k) g = k a g1.
Proof. unfold mbind, M_bind. by intros ->. Qed.

Lemma lift_Ok {A} (r : result A) g a g1 :
  lift r g = Ok (a, g1) -> r = Ok a /\ g1 = g.
Proof. unfold lift. destruct r; intros H; by simplify_eq. Qed.

Lemma lift_Err {A} (r : result A) g e : lift r g = Err e -> r = Err e.
Proof. unfold lift. destruct r; intros H; by simplify_eq. Qed.

Lemma result_bind_Ok {A B} (r : result A) (k : A -> result B) b :
  r ≫= k = Ok b -> exists a, r = Ok a /\ k a = Ok b.
Proof.
  unfold mbind, result_bind. destruct r as [a|e]; [|discriminate].
  intros H. by exists a.
Qed.

Lemma ret_Ok {A} (a b : A) g g1 : (mret a : M A) g = Ok (b, g1) -> b = a /\ g1 = g.
Proof. unfold mret, M_ret. intros H. by simplify_eq. Qed.

Ltac monad_inv :=
  repeat match goal with
    | H : (_ ≫= _) _ = Ok _ |- _ =>
        let a := fresh "a" in let g := fresh "g" in let Ha := fresh "Ha" in
        apply bind_Ok in H as (a & g & Ha & H)
    | H : @mret M _ _ _ _ = Ok _ |- _ => apply ret_Ok in H as [? ?]; subst
    | H : lift _ _ = Ok _ |- _ => apply lift_Ok in H as [? ?]; subst
    end.


Lemma total_ret {A} (a : A) : total (mret a).
Proof. intros g. by exists a, g. Qed.

Lemma total_bind {A B} (m : M A) (k : A -> M B) :
  total m -> (forall a, total (k a)) -> total (m ≫= k).
Proof.
  intros Hm Hk g. destruct (Hm g) as (a & g1 & Ha).
  destruct (Hk a g1) as (b & g2 & Hb).
  exists b, g2. by rewrite (bind_eq_Ok _ _ _ _ _ Ha).
Qed.

Lemma total_draw_below bound : total (draw_below bound).
Proof. intros g. by eexists _, _. Qed.

Lemma total_shuffle_from {A} i (l : list A) : total (shuffle_from i l).
Proof.
  revert l. induction i as [|i IH]; intros l; simpl.
  - apply total_ret.
  - apply total_bind; [apply total_draw_below | intros j; apply IH].
Qed.

Lemma total_random_shuffle {A} (l : list A) : total (random_shuffle l).
Proof. apply total_shuffle_from. Qed.

Lemma total_random_choice {A} (a : list A) size : total (random_choice a size).
Proof.
  induction size as [|size IH]; simpl.
  - apply total_ret.
  - apply total_bind; [apply total_draw_below | intros i].
    apply total_bind; [apply IH | intros rest; apply total_ret].
Qed.

Lemma total_repeat_m {A} n (m : M A) : total m -> total (repeat_m n m).
Proof.
  intros Hm. induction n as [|n IH]; simpl.
  - apply total_ret.
  - apply total_bind; [done | intros x].
    apply total_bind; [apply IH | intros rest; apply total_ret].
Qed.

Lemma total_shuffles n l : total (shuffles n l).
Proof.
  revert l. induction n as [|n IH]; intros l; simpl.
  - apply total_ret.
  - apply total_bind; [apply total_random_shuffle | intros s].
    apply total_bind; [apply IH | intros rest; apply total_ret].
Qed.

Lemma random_choice_length {A} (a : list A) size g sample g1 :
  a <> [] -> random_choice a size g = Ok (sample, g1) -> length sample = size.
Proof.
  intros Ha. revert g sample g1.
  induction size as [|size IH]; intros g sample g1 H; simpl in H; monad_inv; [done|].
  unfold draw_below in *. simplify_eq.
  destruct (lookup_lt_is_Some_2 a (g 0%nat mod length a)%nat) as [x ->].
  { apply Nat.mod_upper_bound. by destruct a. }
  simpl. f_equal. by eapply IH.
Qed.

Lemma shuffles_length n l g perms g1 :
  shuffles n l g = Ok (perms, g1) -> length perms = n.
Proof.
  revert l g perms g1. induction n as [|n IH]; intros l g perms g1; simpl.
  - intros H. by monad_inv.
  - intros H. monad_inv. simpl. f_equal. eauto.
Qed.

(** ** The p-value formula *)

Lemma true_div_pos (a b : Z) :
  1 <= b -> true_div a b = Ok (Num (inject_Z a / inject_Z b)).
Proof. intros Hb. unfold true_div. by destruct (Z.eqb_spec b 0); [lia|]. Qed.

Lemma is_zero_div (a b : Z) :
  1 <= b -> is_zero (Num (inject_Z a / inject_Z b)) = (a =? 0).
Proof.
  intros Hb. destruct b as [|p|p]; try lia.
  unfold is_zero, Qeq_bool, Qdiv, Qinv, Qmult, inject_Z. simpl.
  by rewrite !Z.mul_1_r, Z.mul_0_l.
Qed.

(** The fraction, or the smallest positive fraction when the count is 0. *)
Lemma pvalue_pos (count total : Z) :
  1 <= total ->
  pvalue count total =
  Ok (Num (if count =? 0 then inject_Z 1 / inject_Z total
           else inject_Z count / inject_Z total)).
Proof.
  intros Ht. unfold pvalue.
  rewrite (true_div_pos count), (true_div_pos 1) by done.
  unfold mbind, result_bind. rewrite is_zero_div by done.
  by destruct (count =? 0).
Qed.

Lemma inject_Z_pos (z : Z) : 1 <= z -> (0 < inject_Z z)%Q.
Proof. intros H. change 0%Q with (inject_Z 0). rewrite <- Zlt_Qlt. lia. Qed.

Lemma fraction_range (count total : Z) :
  1 <= count <= total ->
  (inject_Z 1 / inject_Z total <= inject_Z count / inject_Z total)%Q /\
  (inject_Z count / inject_Z total <= 1)%Q /\
  (0 < inject_Z 1 / inject_Z total)%Q.
Proof.
  intros [Hc Ht].
  assert (0 < inject_Z total)%Q as Hpos by (apply inject_Z_pos; lia).
  split_and!.
  - unfold Qdiv. apply Qmult_le_compat_r.
    + rewrite <- Zle_Qle. done.
    + apply Qlt_le_weak, Qinv_lt_0_compat, Hpos.
  - apply Qle_shift_div_r; [done|]. rewrite Qmult_1_l, <- Zle_Qle. done.
  - apply Qlt_shift_div_l; [done|]. rewrite Qmult_0_l. reflexivity.
Qed.

Lemma pvalue_range (count total : Z) :
  0 <= count <= total -> 1 <= total ->
  exists q, pvalue count total = Ok (Num q) /\
    (inject_Z 1 / inject_Z total <= q)%Q /\ (q <= 1)%Q /\ (0 < q)%Q /\
    (count = 0 -> q = (inject_Z 1 / inject_Z total)%Q) /\
    (count <> 0 -> q = (inject_Z count / inject_Z total)%Q).
Proof.
  intros Hc Ht. eexists. split; [by apply pvalue_pos|].
  destruct (Z.eqb_spec count 0) as [-> | Hne].
  - destruct (fraction_range 1 total) as (H1 & H2 & H3); [lia|].
    split_and!; done || apply Qle_refl.
  - destruct (fraction_range count total) as (H1 & H2 & H3); [lia|].
    destruct (Z.eqb_spec count 0); [done|].
    split_and!; done || (eapply Qlt_le_trans; done).
Qed.

Lemma count_exceeding_range (nulls : list pyfloat) (x : pyfloat) :
  0 <= count_exceeding nulls x <= Z.of_nat (length nulls).
Proof.
  unfold count_exceeding. pose proof (length_filter (fun y => fgt y x) nulls). lia.
Qed.

(** Every comparison with NaN is false: nothing exceeds a NaN score. *)
Lemma count_exceeding_nan (nulls : list pyfloat) : count_exceeding nulls NaN = 0.
Proof.
  unfold count_exceeding. induction nulls as [|y l IH]; [done|].
  rewrite filter_cons. destruct y; simpl; exact IH.
Qed.

(** ** The loop over the table (lines 353-362) *)

Section Loop.

Variable null_scores : list (list pyfloat).
Variables nperm nrows : Z.


Lemma pvals_step_Ok i f frame frame' :
  pvals_step null_scores nperm nrows i f frame = Ok frame' ->
  exists v, scored_at null_scores nperm nrows i f v /\ frame' = set_pvals f.1.1 v frame.
Proof.
  unfold pvals_step. intros H.
  apply result_bind_Ok in H as (nulls & Hnulls & H).
  apply result_bind_Ok in H as (lp & Hlp & H).
  apply result_bind_Ok in H as (gp & Hgp & H).
  destruct (null_scores !! i) as [nulls'|] eqn:Hi; [|discriminate].
  simpl in Hnulls. simplify_eq.
  exists (lp, gp). split; [|by injection H]. by exists nulls.
Qed.

Lemma elem_of_set_pvals idx v0 (frame : pvals_frame) l v :
  (l, v) ∈ set_pvals idx v0 frame ->
  (l = idx /\ v = v0) \/ (l <> idx /\ (l, v) ∈ frame).
Proof.
  unfold set_pvals. intros ([l' v'] & Heq & Hin)%list_elem_of_fmap.
  simpl in Heq. destruct (decide (l' = idx)) as [-> | Hne]; simplify_eq; auto.
Qed.

Lemma set_pvals_labels idx v0 (frame : pvals_frame) :
  (set_pvals idx v0 frame).*1 = frame.*1.
Proof.
  unfold set_pvals. rewrite <- list_fmap_compose. apply list_fmap_ext.
  intros i [l v] _. simpl. by destruct (decide (l = idx)).
Qed.

Lemma pvals_loop_spec scores : forall i frame frame',
  pvals_loop null_scores nperm nrows i scores frame = Ok frame' ->
  frame'.*1 = frame.*1 /\
  forall l v, (l, v) ∈ frame' ->
    ((l, v) ∈ frame /\ l ∉ scores.*1.*1) \/
    (exists j f, scores !! j = Some f /\ f.1.1 = l /\ scored_at null_scores nperm nrows (i + j) f v).
Proof.
  induction scores as [|f scores IH]; intros i frame frame' H; simpl in H.
  - injection H as <-. split; [done|]. intros l v Hin. left. split; [done|].
    apply not_elem_of_nil.
  - apply result_bind_Ok in H as (frame1 & Hstep & H).
    apply pvals_step_Ok in Hstep as (v0 & Hv0 & ->).
    apply IH in H as [Hlabels Hrows].
    split; [by rewrite Hlabels, set_pvals_labels|].
    intros l v Hin. destruct (Hrows l v Hin) as [[Hin1 Hnot] | (j & f' & Hj & Hl & Hs)].
    + apply elem_of_set_pvals in Hin1 as [[-> ->] | [Hne Hin1]].
      * right. exists 0%nat, f. rewrite Nat.add_0_r. done.
      * left. split; [done|]. simpl. intros [?|?]%elem_of_cons; done.
    + right. exists (S j), f'. rewrite Nat.add_succ_r. done.
Qed.

(** When the loop fails it fails with one of two exceptions. *)
Lemma pvalue_Err count total e : pvalue count total = Err e -> e = ZeroDivisionError.
Proof.
  unfold pvalue, true_div, mbind, result_bind, mret, result_ret.
  destruct (total =? 0); [by intros [= <-]|].
  match goal with |- context [is_zero ?x] => destruct (is_zero x) end; discriminate.
Qed.

Lemma pvals_loop_Err scores : forall i frame e,
  pvals_loop null_scores nperm nrows i scores frame = Err e ->
  e = ZeroDivisionError \/ e = IndexError.
Proof.
  induction scores as [|f scores IH]; intros i frame e H; simpl in H; [done|].
  unfold pvals_step in H.
  destruct (null_scores !! i) as [nulls|]; simpl in H; [|right; by injection H].
  destruct (pvalue (count_exceeding nulls f.1.2) nperm) eqn:H1; simpl in H;
    [|left; injection H as <-; by eapply pvalue_Err].
  destruct (pvalue (count_exceeding (concat null_scores) f.1.2) (nperm * nrows)) eqn:H2;
    simpl in H; [|left; injection H as <-; by eapply pvalue_Err].
  by eapply IH.
Qed.

End Loop.

(** ** The joins *)

Lemma elem_of_flat_map {A B} (f : A -> list B) (l : list A) (y : B) :
  y ∈ flat_map f l <-> exists x, x ∈ l /\ y ∈ f x.
Proof.
  rewrite list_elem_of_In, in_flat_map. split.
  - intros (x & Hx & Hy). exists x. by rewrite !list_elem_of_In.
  - intros (x & Hx & Hy). exists x. by rewrite <- !list_elem_of_In.
Qed.

Lemma flat_map_nil_inv {A B} (f : A -> list B) (l : list A) :
  flat_map f l = [] -> forall x, x ∈ l -> f x = [].
Proof.
  induction l as [|a l IH]; simpl; intros H x Hx; [by apply elem_of_nil in Hx|].
  apply app_eq_nil in H as [Ha Hl].
  apply elem_of_cons in Hx as [-> | Hx]; auto.
Qed.

Lemma merge_outer_elem scores confidence_intervals b :
  b ∈ merge_outer scores confidence_intervals -> (b.1.1, b.1.2) ∈ scores.
Proof.
  unfold merge_outer. intros (r & Hr & Hb)%elem_of_flat_map.
  rewrite join_order_perm in Hr.
  destruct (filter _ confidence_intervals) as [|c cs].
  - apply list_elem_of_singleton in Hb as ->. simpl. by destruct r.
  - apply list_elem_of_fmap in Hb as (c' & -> & _). simpl. by destruct r.
Qed.

Lemma merge_outer_nil scores confidence_intervals :
  merge_outer scores confidence_intervals = [] -> scores = [].
Proof.
  unfold merge_outer. intros H.
  destruct scores as [|s scores]; [done|].
  assert (s ∈ join_order (s :: scores) confidence_intervals) as Hs.
  { rewrite join_order_perm. by left. }
  pose proof (flat_map_nil_inv _ _ H s Hs) as Hnil. simpl in Hnil.
  destruct (filter _ confidence_intervals); discriminate.
Qed.

Lemma merge_pvals_elem scores frame r :
  r ∈ merge_pvals scores frame ->
  exists b e, b ∈ scores /\ e ∈ frame /\ e.1.1 = b.1.1 /\
    feature r = b.1.1 /\ metric_value r = b.1.2 /\ margin_of_error r = b.2 /\
    local_pvalue r = e.1.2.1 /\ global_pvalue r = e.1.2.2 /\ fdr_bh r = e.2.
Proof.
  unfold merge_pvals. intros (b & Hb & Hr)%elem_of_flat_map.
  apply list_elem_of_fmap in Hr as (e & -> & He).
  apply list_elem_of_filter in He as [Hlabel He].
  exists b, e. simpl. split_and!; done.
Qed.

(** ** The stages of compute_against_reference *)

Section EngineProperties.

Context {externals : Externals}.


Lemma compute_against_reference_Ok features ref metric nfeatures ascending nsampling
    confidence nperm g tbl g2 :
  compute_against_reference features ref metric nfeatures ascending nsampling
    confidence nperm g = Ok (tbl, g2) ->
  exists function boot g1 null_scores frame,
    metric_function metric = Ok function /\
    bootstrap function features ref (compute_scores function features ref)
      nfeatures nsampling confidence g = Ok (boot, g1) /\
    permutation_scores function features ref nperm g1 = Ok (null_scores, g2) /\
    pvals_loop null_scores nperm (Z.of_nat (length (rows features))) 0 boot.2
      (empty_frame features) = Ok frame /\
    tbl = {| moe_column := boot.1;
             table_rows :=
               sort_values metric_value ascending
                 (merge_pvals boot.2
                    (zip frame (fdr_bh_correction (map (fun e => e.2.2) frame)))) |}.
Proof.
  unfold compute_against_reference. intros H. monad_inv.
  match goal with
  | H : multipletests_fdr_bh _ = Ok _ |- _ => rename H into Hfdr
  end.
  unfold multipletests_fdr_bh in Hfdr.
  eexists _, _, _, _, _. split_and!; try done.
  destruct (map _ _); [discriminate|]. by injection Hfdr as <-.
Qed.

Lemma bootstrap_rows function features ref scores nfeatures nsampling confidence g boot g1 :
  bootstrap function features ref scores nfeatures nsampling confidence g = Ok (boot, g1) ->
  (forall b, b ∈ boot.2 -> (b.1.1, b.1.2) ∈ scores) /\
  (boot.2 = [] -> scores = []).
Proof.
  unfold bootstrap. intros H.
  destruct (nsampling <? 2); [|destruct (nsample features <? 3)]; monad_inv; simpl.
  1,2: split;
    [ intros b (r & -> & Hr)%list_elem_of_fmap; simpl; by destruct r
    | by intros ?%fmap_nil_inv ].
  split; [apply merge_outer_elem | apply merge_outer_nil].
Qed.

Lemma permutation_scores_shape function features ref nperm g null_scores g1 :
  permutation_scores function features ref nperm g = Ok (null_scores, g1) ->
  0 <= nperm /\
  length null_scores = length (rows features) /\
  (forall nulls, nulls ∈ null_scores -> length nulls = Z.to_nat nperm) /\
  length (concat null_scores) = (length (rows features) * Z.to_nat nperm)%nat.
Proof.
  unfold permutation_scores. destruct (Z.ltb_spec nperm 0) as [Hneg | Hnn]; [discriminate|].
  intros H. monad_inv.
  match goal with H : shuffles _ _ _ = Ok _ |- _ => apply shuffles_length in H as Hlen end.
  split_and!.
  - done.
  - by rewrite length_fmap.
  - intros nulls (r & -> & _)%list_elem_of_fmap. by rewrite length_fmap.
  - induction (rows features) as [|r rs IH]; simpl; [done|].
    rewrite length_app, length_fmap, IH. lia.
Qed.

Lemma compute_scores_labels function features ref l v :
  (l, v) ∈ compute_scores function features ref ->
  exists r, r ∈ rows features /\ r.1 = l /\ v = function r.2 ref.*2.
Proof.
  unfold compute_scores. rewrite sort_values_perm.
  intros (r & Heq & Hr)%list_elem_of_fmap. exists r. by simplify_eq.
Qed.

Lemma NoDup_fst_functional {A B} (l : list (A * B)) x y1 y2 :
  NoDup l.*1 -> (x, y1) ∈ l -> (x, y2) ∈ l -> y1 = y2.
Proof.
  induction l as [|[a b] l IH]; simpl; intros Hnd H1 H2.
  - by apply elem_of_nil in H1.
  - apply NoDup_cons in Hnd as [Hnotin Hnd].
    apply elem_of_cons in H1 as [H1 | H1], H2 as [H2 | H2]; simplify_eq.
    + done.
    + exfalso. apply Hnotin. apply list_elem_of_fmap. by exists (a, y2).
    + exfalso. apply Hnotin. apply list_elem_of_fmap. by exists (a, y1).
    + by apply IH.
Qed.

(** The score of a label is a function of the label when labels are unique. *)
Lemma compute_scores_functional function features ref l v1 v2 :
  NoDup (index features) ->
  (l, v1) ∈ compute_scores function features ref ->
  (l, v2) ∈ compute_scores function features ref ->
  v1 = v2.
Proof.
  intros Hnd (r1 & Hr1 & Hl1 & ->)%compute_scores_labels
             (r2 & Hr2 & Hl2 & ->)%compute_scores_labels.
  destruct r1 as [k1 x1], r2 as [k2 x2]. simpl in *. subst.
  by rewrite (NoDup_fst_functional (rows features) l x1 x2).
Qed.

(** What a row of the returned table is made of: a row of the table that was
    scored, and the p-values the loop computed for a row of that table with
    the same label. *)
Lemma table_row_anatomy features ref metric nfeatures ascending nsampling
    confidence nperm g tbl g2 r :
  compute_against_reference features ref metric nfeatures ascending nsampling
    confidence nperm g = Ok (tbl, g2) ->
  r ∈ table_rows tbl ->
  exists function null_scores g1 j f v,
    permutation_scores function features ref nperm g1 = Ok (null_scores, g2) /\
    (feature r, metric_value r) ∈ compute_scores function features ref /\
    (f.1.1, f.1.2) ∈ compute_scores function features ref /\
    f.1.1 = feature r /\
    scored_at null_scores nperm (Z.of_nat (length (rows features))) j f v /\
    local_pvalue r = v.1 /\ global_pvalue r = v.2.
Proof.
  intros (function & boot & g1 & null_scores & frame & Hm & Hb & Hp & Hl & ->)
           %compute_against_reference_Ok Hr.
  simpl in Hr. rewrite sort_values_perm in Hr.
  apply merge_pvals_elem in Hr
    as (b & e & Hb' & He & Hlabel & Hf & Hmv & _ & Hlp & Hgp & _).
  destruct e as [[l v] q]. apply elem_of_zip_l in He.
  apply bootstrap_rows in Hb as [Hrows _].
  apply pvals_loop_spec in Hl as [_ Hframe].
  simpl in *.
  destruct (Hframe l v He) as [[_ Hnot] | (j & f & Hj & Hfl & Hs)].
  - exfalso. apply Hnot. rewrite Hlabel.
    apply list_elem_of_fmap. exists b.1. split; [done|].
    apply list_elem_of_fmap. by exists b.
  - exists function, null_scores, g1, j, f, v. split_and!; try done.
    + rewrite Hf, Hmv. by apply Hrows.
    + apply Hrows. by eapply list_elem_of_lookup_2.
    + congruence.
Qed.

Lemma scored_at_range null_scores nperm nrows j f v :
  1 <= nperm -> 1 <= nrows ->
  (forall nulls, nulls ∈ null_scores -> length nulls = Z.to_nat nperm) ->
  length (concat null_scores) = (Z.to_nat nrows * Z.to_nat nperm)%nat ->
  scored_at null_scores nperm nrows j f v ->
  exists pl pg, v = (Num pl, Num pg) /\
    (1 / inject_Z nperm <= pl)%Q /\ (pl <= 1)%Q /\ (0 < pl)%Q /\
    (1 / inject_Z (nperm * nrows) <= pg)%Q /\ (pg <= 1)%Q /\ (0 < pg)%Q /\
    (f.1.2 = NaN ->
     pl = (1 / inject_Z nperm)%Q /\ pg = (1 / inject_Z (nperm * nrows))%Q).
Proof.
  intros Hnperm Hnrows Hrow Hall (nulls & Hj & Hl & Hg).
  pose proof (count_exceeding_range nulls f.1.2) as Hc1.
  pose proof (count_exceeding_range (concat null_scores) f.1.2) as Hc2.
  rewrite (Hrow nulls) in Hc1 by (by eapply list_elem_of_lookup_2).
  rewrite Hall in Hc2.
  destruct (pvalue_range (count_exceeding nulls f.1.2) nperm)
    as (pl & Hpl & Hl1 & Hl2 & Hl3 & Hl4 & _); [lia | lia |].
  destruct (pvalue_range (count_exceeding (concat null_scores) f.1.2) (nperm * nrows))
    as (pg & Hpg & Hg1 & Hg2 & Hg3 & Hg4 & _); [lia | lia |].
  exists pl, pg. destruct v as [v1 v2]. simpl in *.
  split_and!; try done.
  - congruence.
  - intros Hnan. rewrite Hnan, count_exceeding_nan in Hl4, Hg4. auto.
Qed.

(** *** The selection by count on the tables of the engine *)

Lemma precedes_numbers ascending (p q : Q) :
  precedes ascending (Num p) (Num q) = true ->
  if ascending then (p <= q)%Q else (q <= p)%Q.
Proof. destruct ascending; simpl; by rewrite Qle_bool_iff. Qed.

Lemma precedes_nan ascending (y : pyfloat) : precedes ascending NaN y = true -> y = NaN.
Proof. by destruct y. Qed.

(** C4, as the code has it. For a threshold [n >= 1] the selection is the
    first [n] and the last [n] rows of the table, and both tables the engine
    selects from are sorted by metric value with NaN last: the scores of line
    300 ascending, the returned table in the direction asked for.  So among
    numbers the first [n] rows are the [n] lowest (highest, when descending)
    and the last [n] the [n] highest (lowest), but a row with a NaN score
    stands after every number and is taken among the last [n] before any
    number is.  The features selected number at most [2n], fewer when the
    table has fewer than [2n] rows; on a table of at least [2n] rows with
    distinct labels the selection has exactly [2n] entries, all distinct, none
    both among the first [n] and among the last [n]. *)
Theorem select_indices_top_and_bottom (n : Z) :
  1 <= n ->
  (forall (ascending : bool) (scores : list (string * pyfloat)),
     Sorted (by_value snd ascending) scores ->
     exists first rest rest' last : list (string * pyfloat),
       select_indices scores (Int n) = Ok (first.*1 ++ last.*1) /\
       scores = first ++ rest /\ scores = rest' ++ last /\
       length first = (Z.to_nat n `min` length scores)%nat /\
       length last = (Z.to_nat n `min` length scores)%nat /\
       (forall r r' p q, r ∈ first -> r' ∈ rest -> r.2 = Num p -> r'.2 = Num q ->
          if ascending then (p <= q)%Q else (q <= p)%Q) /\
       (forall r r' p q, r ∈ rest' -> r' ∈ last -> r.2 = Num p -> r'.2 = Num q ->
          if ascending then (p <= q)%Q else (q <= p)%Q) /\
       (forall r r', r ∈ first -> r' ∈ rest -> r.2 = NaN -> r'.2 = NaN) /\
       (forall r r', r ∈ rest' -> r' ∈ last -> r.2 = NaN -> r'.2 = NaN) /\
       (size (list_to_set (first.*1 ++ last.*1) : gset string) <= 2 * Z.to_nat n)%nat /\
       ((length scores < 2 * Z.to_nat n)%nat ->
        (size (list_to_set (first.*1 ++ last.*1) : gset string) < 2 * Z.to_nat n)%nat) /\
       ((2 * Z.to_nat n <= length scores)%nat -> NoDup scores.*1 ->
        length (first.*1 ++ last.*1) = (2 * Z.to_nat n)%nat /\
        NoDup (first.*1 ++ last.*1) /\
        size (list_to_set (first.*1 ++ last.*1) : gset string) = (2 * Z.to_nat n)%nat /\
        forall x, x ∈ first.*1 -> x ∉ last.*1)) /\
  (forall function features ref,
     Sorted (by_value snd true) (compute_scores function features ref)) /\
  (forall features ref metric nfeatures ascending nsampling confidence nperm g tbl g2,
     compute_against_reference features ref metric nfeatures ascending nsampling
       confidence nperm g = Ok (tbl, g2) ->
     Sorted (by_value snd ascending)
       (map (fun r => (feature r, metric_value r)) (table_rows tbl))).
Proof.
  intros Hn. split_and!.
  - intros ascending scores Hsorted.
    exists (take (Z.to_nat n) scores), (drop (Z.to_nat n) scores),
      (take (length scores - Z.to_nat n) scores), (drop (length scores - Z.to_nat n) scores).
    apply (Sorted_StronglySorted _) in Hsorted.
    assert (forall k r r', r ∈ take k scores -> r' ∈ drop k scores ->
              precedes ascending r.2 r'.2 = true) as Horder.
    { intros k r r' Hr Hr'. apply Is_true_true.
      apply (StronglySorted_app_1_elem_of (by_value snd ascending)
               (take k scores) (drop k scores) r r'); [|done..].
      by rewrite take_drop. }
    pose proof (slice_head_length n scores.*1) as Hh.
    pose proof (slice_tail_length n scores.*1) as Ht.
    rewrite length_fmap in Hh, Ht.
    assert ((take (Z.to_nat n) scores).*1 = slice_head n scores.*1) as Hfirst.
    { unfold slice_head. by rewrite fmap_take. }
    assert ((drop (length scores - Z.to_nat n) scores).*1 = slice_tail n scores.*1) as Hlast.
    { unfold slice_tail. by rewrite fmap_drop, length_fmap. }
    rewrite Hfirst, Hlast.
    split_and!.
    + by apply select_indices_count.
    + by rewrite take_drop.
    + by rewrite take_drop.
    + rewrite length_take. lia.
    + rewrite length_drop. lia.
    + intros r r' p q Hr Hr' Hp Hq. apply precedes_numbers.
      rewrite <- Hp, <- Hq. by eapply Horder.
    + intros r r' p q Hr Hr' Hp Hq. apply precedes_numbers.
      rewrite <- Hp, <- Hq. by eapply Horder.
    + intros r r' Hr Hr' Hnan. apply (precedes_nan ascending).
      rewrite <- Hnan. by eapply Horder.
    + intros r r' Hr Hr' Hnan. apply (precedes_nan ascending).
      rewrite <- Hnan. by eapply Horder.
    + etrans; [apply size_list_to_set_le|]. rewrite length_app. lia.
    + intros Hlt. eapply Nat.le_lt_trans; [|exact Hlt].
      rewrite <- (length_fmap fst scores). apply size_list_to_set_subseteq.
      intros x [Hx | Hx]%elem_of_app.
      * by apply (subseteq_take (Z.to_nat n)).
      * by apply (subseteq_drop (length scores.*1 - Z.to_nat n)).
    + intros Hlen Hnd.
      assert (NoDup (slice_head n scores.*1 ++ slice_tail n scores.*1)) as Hnd'.
      { apply slices_disjoint; [lia | by rewrite length_fmap | done]. }
      split_and!; try done.
      * rewrite length_app. lia.
      * rewrite size_list_to_set by done. rewrite length_app. lia.
      * apply NoDup_app in Hnd' as (_ & H' & _). exact H'.
  - intros function features ref. apply sort_values_sorted.
  - intros features ref metric nfeatures ascending nsampling confidence nperm g tbl g2
      (function & boot & g1 & ns & frame & _ & _ & _ & _ & ->)%compute_against_reference_Ok.
    simpl. change (map ?f ?l) with (f <$> l).
    apply (Sorted_fmap (fun r => (feature r, metric_value r))
             (by_value metric_value ascending) (by_value snd ascending)); [done|].
    apply sort_values_sorted.
Qed.

(** C9. A feature whose score is NaN gets the smallest p-values there are:
    nothing compares greater than NaN, both counts are 0, and the local p-value
    is [1/nperm], the global one [1/(nperm * n)].  Feature labels are unique. *)
Theorem nan_score_gets_smallest_pvalues features ref metric nfeatures ascending
    nsampling confidence nperm g tbl g2 :
  1 <= nperm ->
  NoDup (index features) ->
  compute_against_reference features ref metric nfeatures ascending nsampling
    confidence nperm g = Ok (tbl, g2) ->
  forall r, r ∈ table_rows tbl -> metric_value r = NaN ->
    local_pvalue r = Num (1 / inject_Z nperm) /\
    global_pvalue r = Num (1 / inject_Z (nperm * Z.of_nat (length (rows features)))).
Proof.
  intros Hnperm Hnd Hrun r Hr Hnan.
  destruct (table_row_anatomy _ _ _ _ _ _ _ _ _ _ _ _ Hrun Hr)
    as (function & null_scores & g1 & j & f & v & Hp & Hr' & Hf & Hlabel & Hs & Hlp & Hgp).
  apply permutation_scores_shape in Hp as (_ & _ & Hrow & Hall).
  assert (f.1.2 = NaN) as Hfnan.
  { rewrite Hlabel in Hf. rewrite <- Hnan.
    by eapply compute_scores_functional. }
  assert (1 <= Z.of_nat (length (rows features))) as Hn.
  { apply compute_scores_labels in Hf as (x & Hx & _).
    destruct (rows features); [by apply elem_of_nil in Hx | simpl; lia]. }
  pose proof (scored_at_range _ _ _ j f v Hnperm Hn Hrow) as Hrange.
  rewrite Nat2Z.id in Hrange.
  destruct (Hrange Hall Hs) as (pl & pg & -> & _ & _ & _ & _ & _ & _ & Hfloor).
  destruct (Hfloor Hfnan) as [-> ->]. by rewrite Hlp, Hgp.
Qed.

(** *** When the stages return *)

Lemma quantile_Ok (vals : list pyfloat) (q : Q) :
  (0 <= q)%Q -> (q <= 1)%Q -> exists v, quantile vals q = Ok v.
Proof.
  intros H0 H1. unfold quantile.
  apply Qle_bool_iff in H0, H1. rewrite H0, H1. simpl.
  destruct (valid_sorted vals); eexists; reflexivity.
Qed.

Lemma select_indices_Ok scores nfeatures :
  valid_threshold nfeatures -> exists sel, select_indices scores nfeatures = Ok sel.
Proof.
  destruct nfeatures as [n | x]; simpl; intros Hv.
  - rewrite select_indices_count by done. by eexists.
  - destruct Hv as [H0 H1]. unfold select_indices, lt_one. simpl.
    assert (Qle_bool 1 x = false) as ->.
    { apply not_true_is_false. intros H%Qle_bool_iff. by apply Qle_not_lt in H. }
    simpl.
    destruct (quantile_Ok scores.*2 x) as [hi ->]; [by apply Qlt_le_weak.. |].
    destruct (quantile_Ok scores.*2 (1 - x)) as [lo ->].
    { apply Qlt_le_weak. unfold Qminus. by rewrite <- Qlt_minus_iff. }
    { apply Qle_minus_iff. assert (1 + - (1 - x) == x)%Q as -> by ring.
      by apply Qlt_le_weak. }
    by eexists.
Qed.

Lemma total_bootstrap_replicate function features ref indices_to_bootstrap :
  total (bootstrap_replicate function features ref indices_to_bootstrap).
Proof.
  unfold bootstrap_replicate.
  apply total_bind; [apply total_random_choice | intros; apply total_ret].
Qed.

Lemma total_bootstrap function features ref scores nfeatures nsampling confidence :
  valid_threshold nfeatures ->
  total (bootstrap function features ref scores nfeatures nsampling confidence).
Proof.
  intros Hv. unfold bootstrap.
  destruct (nsampling <? 2); [apply total_ret|].
  destruct (nsample features <? 3); [apply total_ret|].
  destruct (select_indices_Ok scores nfeatures Hv) as [sel ->].
  apply total_bind; [intros g; by eexists _, _ | intros indices].
  apply total_bind; [|intros; apply total_ret].
  apply total_repeat_m, total_bootstrap_replicate.
Qed.

Lemma bootstrap_skipped function features ref scores nfeatures nsampling confidence g :
  nsampling < 2 \/ nsample features < 3 ->
  bootstrap function features ref scores nfeatures nsampling confidence g =
  Ok ((None, map (fun r => (r.1, r.2, NaN)) scores), g).
Proof.
  intros Hskip. unfold bootstrap.
  destruct (Z.ltb_spec nsampling 2); [done|].
  destruct (Z.ltb_spec (nsample features) 3); [done | lia].
Qed.

Lemma bootstrap_column function features ref scores nfeatures nsampling confidence g boot g1 :
  bootstrap function features ref scores nfeatures nsampling confidence g = Ok (boot, g1) ->
  boot.1 = None <-> nsampling < 2 \/ nsample features < 3.
Proof.
  unfold bootstrap.
  destruct (Z.ltb_spec nsampling 2) as [Hs | Hs];
    [|destruct (Z.ltb_spec (nsample features) 3) as [Hn | Hn]];
    intros H; monad_inv; simpl; split; try done; try lia; auto.
Qed.

Lemma total_permutation_scores function features ref nperm :
  0 <= nperm -> total (permutation_scores function features ref nperm).
Proof.
  intros Hn. unfold permutation_scores.
  destruct (Z.ltb_spec nperm 0); [lia|].
  apply total_bind; [apply total_shuffles | intros; apply total_ret].
Qed.

Lemma pvals_loop_total null_scores nperm scores : forall i frame,
  1 <= nperm ->
  (i + length scores <= length null_scores)%nat ->
  exists frame',
    pvals_loop null_scores nperm (Z.of_nat (length null_scores)) i scores frame
    = Ok frame'.
Proof.
  induction scores as [|f scores IH]; intros i frame Hp Hlen; simpl in *.
  - by eexists.
  - unfold pvals_step.
    destruct (lookup_lt_is_Some_2 null_scores i) as [nulls ->]; [lia|]. simpl.
    rewrite (pvalue_pos _ nperm) by lia.
    rewrite (pvalue_pos _ (nperm * _)) by nia. simpl.
    apply IH; [done | lia].
Qed.

Lemma compute_scores_length function features ref :
  length (compute_scores function features ref) = length (rows features).
Proof.
  unfold compute_scores. rewrite (Permutation_length (sort_values_perm _ _ _)).
  apply length_fmap.
Qed.

Lemma compute_against_reference_intro features ref metric nfeatures ascending nsampling
    confidence nperm g function boot g1 null_scores g2 :
  metric_function metric = Ok function ->
  bootstrap function features ref (compute_scores function features ref)
    nfeatures nsampling confidence g = Ok (boot, g1) ->
  permutation_scores function features ref nperm g1 = Ok (null_scores, g2) ->
  compute_against_reference features ref metric nfeatures ascending nsampling
    confidence nperm g =
  match pvals_loop null_scores nperm (Z.of_nat (length (rows features))) 0 boot.2
          (empty_frame features) with
  | Ok [] => Err ZeroDivisionError
  | Ok frame =>
      Ok ({| moe_column := boot.1;
             table_rows :=
               sort_values metric_value ascending
                 (merge_pvals boot.2
                    (zip frame (fdr_bh_correction (map (fun e => e.2.2) frame)))) |},
          g2)
  | Err e => Err e
  end.
Proof.
  intros Hm Hb Hp. unfold compute_against_reference, mbind, M_bind, lift.
  rewrite Hm, Hb, Hp. destruct (pvals_loop _ _ _ _ _ _) as [[|e frame]|e]; done.
Qed.

(** On at least one feature row the frame of p-values is not empty, and the
    correction goes through. *)
Lemma compute_against_reference_intro_rows features ref metric nfeatures ascending
    nsampling confidence nperm g function boot g1 null_scores g2 :
  metric_function metric = Ok function ->
  bootstrap function features ref (compute_scores function features ref)
    nfeatures nsampling confidence g = Ok (boot, g1) ->
  permutation_scores function features ref nperm g1 = Ok (null_scores, g2) ->
  rows features <> [] ->
  compute_against_reference features ref metric nfeatures ascending nsampling
    confidence nperm g =
  match pvals_loop null_scores nperm (Z.of_nat (length (rows features))) 0 boot.2
          (empty_frame features) with
  | Ok frame =>
      Ok ({| moe_column := boot.1;
             table_rows :=
               sort_values metric_value ascending
                 (merge_pvals boot.2
                    (zip frame (fdr_bh_correction (map (fun e => e.2.2) frame)))) |},
          g2)
  | Err e => Err e
  end.
Proof.
  intros Hm Hb Hp Hrows.
  rewrite (compute_against_reference_intro _ _ _ _ _ _ _ _ _ _ _ _ _ _ Hm Hb Hp).
  destruct (pvals_loop _ _ _ _ _ _) as [frame|e] eqn:Hloop; [|done].
  destruct frame as [|e frame]; [|done].
  apply pvals_loop_spec in Hloop as [Hlabels _].
  unfold empty_frame, index in Hlabels. rewrite <- !list_fmap_compose in Hlabels.
  destruct (rows features); [done | discriminate].
Qed.

(** C8, as the code has it. On a feature matrix without rows the scores are
    the empty table, and the bootstrap, the permutations and the p-value loop
    go through on it; the correction does not: [multipletests] divides by the
    number of p-values, which is 0, and the run raises ZeroDivisionError
    instead of returning a table. *)
Theorem no_rows_raise_in_the_correction features ref nfeatures ascending nsampling
    confidence nperm g :
  rows features = [] ->
  valid_threshold nfeatures ->
  0 <= nperm ->
  compute_scores information_coefficient features ref = [] /\
  (exists moe g1 g2,
     bootstrap information_coefficient features ref
       (compute_scores information_coefficient features ref)
       nfeatures nsampling confidence g = Ok ((moe, []), g1) /\
     permutation_scores information_coefficient features ref nperm g1 = Ok ([], g2) /\
     pvals_loop [] nperm (Z.of_nat (length (rows features))) 0 []
       (empty_frame features) = Ok []) /\
  multipletests_fdr_bh [] = Err ZeroDivisionError /\
  compute_against_reference features ref (literal "information_coef") nfeatures ascending
    nsampling confidence nperm g
  = Err ZeroDivisionError.
Proof.
  intros Hrows Hv Hnperm.
  pose (function := information_coefficient).
  assert (compute_scores function features ref = []) as Hscores.
  { unfold compute_scores. by rewrite Hrows. }
  split; [done|].
  destruct (total_bootstrap function features ref (compute_scores function features ref)
              nfeatures nsampling confidence Hv g) as ([moe bs] & g1 & Hb).
  destruct (total_permutation_scores function features ref nperm Hnperm g1)
    as (null_scores & g2 & Hp).
  assert (bs = []) as ->.
  { destruct bs as [|b bs]; [done|].
    apply bootstrap_rows in Hb as [Hin _].
    specialize (Hin b (list_elem_of_here _ _)). rewrite Hscores in Hin.
    by apply elem_of_nil in Hin. }
  assert (null_scores = []) as ->.
  { apply permutation_scores_shape in Hp as (_ & Hlen & _).
    rewrite Hrows in Hlen. by destruct null_scores. }
  assert (empty_frame features = []) as Hframe.
  { unfold empty_frame, index. by rewrite Hrows. }
  split; [|split; [done|]].
  - exists moe, g1, g2. split_and!; [done | done |]. by rewrite Hframe.
  - rewrite (compute_against_reference_intro features ref (literal "information_coef")
               _ _ _ _ _ _ function _ _ _ _ eq_refl Hb Hp).
    simpl. by rewrite Hframe.
Qed.

(** C10. With [nperm = 0] and at least one feature row the p-value loop
    divides by zero: the run raises ZeroDivisionError, it does not skip the
    stage.  A run on at least one row that returns a table had
    [nperm >= 1]. *)
Theorem zero_permutations_divide_by_zero features ref nfeatures ascending nsampling
    confidence :
  rows features <> [] ->
  (forall g, valid_threshold nfeatures ->
     compute_against_reference features ref (literal "information_coef") nfeatures ascending
       nsampling confidence 0 g = Err ZeroDivisionError) /\
  (forall metric nperm g tbl g2,
     compute_against_reference features ref metric nfeatures ascending nsampling
       confidence nperm g = Ok (tbl, g2) ->
     1 <= nperm).
Proof.
  intros Hrows.
  assert (forall function nperm g g1 boot null_scores g2,
            bootstrap function features ref (compute_scores function features ref)
              nfeatures nsampling confidence g = Ok (boot, g1) ->
            permutation_scores function features ref nperm g1 = Ok (null_scores, g2) ->
            nperm <= 0 ->
            pvals_loop null_scores nperm (Z.of_nat (length (rows features))) 0 boot.2
              (empty_frame features) = Err ZeroDivisionError) as Hloop.
  { intros function nperm g g1 boot null_scores g2 Hb Hp Hle.
    apply permutation_scores_shape in Hp as (Hnn & Hlen & _).
    assert (nperm = 0) as -> by lia.
    apply bootstrap_rows in Hb as [_ Hnil].
    destruct boot.2 as [|f fs].
    - exfalso. specialize (Hnil eq_refl).
      pose proof (compute_scores_length function features ref) as Hl.
      rewrite Hnil in Hl. by destruct (rows features).
    - simpl. unfold pvals_step.
      destruct (lookup_lt_is_Some_2 null_scores 0) as [nulls ->]; [|done].
      rewrite Hlen. destruct (rows features); [done | simpl; lia]. }
  split.
  - intros g Hv. pose (function := information_coefficient).
    destruct (total_bootstrap function features ref (compute_scores function features ref)
                nfeatures nsampling confidence Hv g) as (boot & g1 & Hb).
    destruct (total_permutation_scores function features ref 0 ltac:(lia) g1)
      as (null_scores & g2 & Hp).
    rewrite (compute_against_reference_intro features ref (literal "information_coef") _ _ _ _ _ _
               function _ _ _ _ eq_refl Hb Hp).
    by rewrite (Hloop _ _ _ _ _ _ _ Hb Hp).
  - intros metric nperm g tbl g2
      (function & boot & g1 & ns & frame & _ & Hb & Hp & Hl & _)%compute_against_reference_Ok.
    destruct (Z.le_gt_cases 1 nperm) as [|Hlt]; [done|].
    rewrite (Hloop _ _ _ _ _ _ _ Hb Hp) in Hl by lia. discriminate.
Qed.

(** *** The exceptions of the scoring *)


Lemma quantile_Err vals q e : quantile vals q = Err e -> scoring_error e.
Proof.
  unfold quantile. destruct (negb _); [by intros [= <-]|].
  by destruct (valid_sorted vals).
Qed.

Lemma select_indices_Err scores nfeatures e :
  select_indices scores nfeatures = Err e -> scoring_error e.
Proof.
  unfold select_indices. destruct (lt_one nfeatures).
  - destruct (quantile scores.*2 (number_value nfeatures)) as [hi|e1] eqn:H1; simpl.
    + destruct (quantile scores.*2 (1 - number_value nfeatures)) as [lo|e2] eqn:H2;
        simpl; [done|].
      intros [= <-]. by eapply quantile_Err.
    + intros [= <-]. by eapply quantile_Err.
  - destruct nfeatures; [done | by intros [= <-]].
Qed.

Lemma total_not_Err {A} (m : M A) g e : total m -> m g <> Err e.
Proof. intros Hm H. destruct (Hm g) as (a & g1 & Ha). congruence. Qed.

Lemma bootstrap_Err function features ref scores nfeatures nsampling confidence g e :
  bootstrap function features ref scores nfeatures nsampling confidence g = Err e ->
  scoring_error e.
Proof.
  unfold bootstrap.
  destruct (nsampling <? 2); [done|]. destruct (nsample features <? 3); [done|].
  intros [H | (sel & g1 & _ & H)]%bind_Err.
  - apply lift_Err in H. by eapply select_indices_Err.
  - apply bind_Err in H as [H | (reps & g2 & _ & H)]; [|done].
    exfalso. revert H. apply total_not_Err, total_repeat_m, total_bootstrap_replicate.
Qed.

Lemma permutation_scores_Err function features ref nperm g e :
  permutation_scores function features ref nperm g = Err e -> scoring_error e.
Proof.
  unfold permutation_scores. destruct (nperm <? 0); [by intros [= <-]|].
  intros [H | (perms & g1 & _ & H)]%bind_Err; [|done].
  exfalso. revert H. apply total_not_Err, total_shuffles.
Qed.

Lemma compute_against_reference_Err features ref metric nfeatures ascending nsampling
    confidence nperm g e :
  compute_against_reference features ref metric nfeatures ascending nsampling
    confidence nperm g = Err e ->
  scoring_error e.
Proof.
  unfold compute_against_reference.
  intros [H | (function & g0 & _ & H)]%bind_Err.
  { apply lift_Err in H. unfold metric_function in H.
    destruct (is_literal _ _); [done | by injection H as <-]. }
  apply bind_Err in H as [H | (boot & g1 & _ & H)]; [by eapply bootstrap_Err|].
  apply bind_Err in H as [H | (ns & g2 & _ & H)]; [by eapply permutation_scores_Err|].
  apply bind_Err in H as [H | (frame & g3 & _ & H)].
  { apply lift_Err, pvals_loop_Err in H as [-> | ->]; done. }
  apply bind_Err in H as [H | (fdrs & g4 & _ & H)]; [|done].
  apply lift_Err in H. unfold multipletests_fdr_bh in H.
  destruct (map _ _); [by injection H as <- | done].
Qed.

(** *** The inputs of the scoring *)

Lemma series_take_labels (s : Series) labels : (series_take s labels).*1 = labels.
Proof.
  unfold series_take. rewrite <- list_fmap_compose. simpl. apply list_fmap_id.
Qed.

Lemma series_take_elem (s : Series) labels c v :
  (c, v) ∈ series_take s labels -> v = series_get s c.
Proof. unfold series_take. intros (c' & Heq & _)%list_elem_of_fmap. by simplify_eq. Qed.

Lemma series_get_take (s : Series) labels c :
  c ∈ labels -> series_get (series_take s labels) c = series_get s c.
Proof.
  induction labels as [|c0 labels IH]; intros Hc; [by apply elem_of_nil in Hc|].
  simpl. destruct (String.eqb_spec c0 c) as [-> | Hne]; [done|].
  apply elem_of_cons in Hc as [-> | Hc]; [done | by apply IH].
Qed.

Lemma zip_series_take (s : Series) labels :
  zip labels (series_take s labels).*2 = series_take s labels.
Proof.
  unfold series_take. induction labels as [|c labels IH]; [done|].
  rewrite !fmap_cons. simpl. f_equal. exact IH.
Qed.

Lemma row_take_row_take cols0 vals cols labels :
  labels ⊆ cols ->
  row_take cols (row_take cols0 vals cols) labels = row_take cols0 vals labels.
Proof.
  intros Hsub. unfold row_take. rewrite zip_series_take.
  unfold series_take at 1 3. rewrite <- !list_fmap_compose.
  apply list_fmap_ext. intros i c Hc. simpl.
  apply series_get_take, Hsub. by eapply list_elem_of_lookup_2.
Qed.

Lemma prepare_inputs_Ok features ref ref_sort ref_ascending :
  col_intersection features ref <> ∅ ->
  exists features' ref',
    prepare_inputs features ref ref_sort ref_ascending = Ok (features', ref') /\
    columns features' = ref'.*1 /\
    NoDup (columns features') /\
    (forall c, c ∈ columns features' <-> c ∈ columns features /\ c ∈ ref.*1) /\
    (forall c v, (c, v) ∈ ref' -> v = series_get ref c) /\
    (forall r', r' ∈ rows features' ->
       exists r, r ∈ rows features /\ r'.1 = r.1 /\
         r'.2 = row_take (columns features) r.2 (columns features')).
Proof.
  intros Hne. unfold prepare_inputs.
  destruct (decide (col_intersection features ref = ∅)) as [|_]; [done|].
  set (cols := set_iteration (col_intersection features ref)).
  assert (forall c, c ∈ cols <-> c ∈ columns features /\ c ∈ ref.*1) as Hcols.
  { intros c. unfold cols, col_intersection.
    rewrite set_iteration_elements.
    rewrite elem_of_elements, elem_of_intersection, !elem_of_list_to_set. done. }
  assert (NoDup cols) as Hnd.
  { unfold cols. rewrite set_iteration_elements. apply NoDup_elements. }
  assert (forall r', r' ∈ rows (drop_zero_rows (take_columns features cols)) ->
            exists r, r ∈ rows features /\ r'.1 = r.1 /\
              r'.2 = row_take (columns features) r.2 cols) as Hrows.
  { intros r' [_ Hr']%list_elem_of_filter.
    apply list_elem_of_fmap in Hr' as (r & -> & Hr). by exists r. }
  destruct ref_sort; eexists _, _; (split; [reflexivity|]); simpl.
  - pose proof (sort_values_perm snd ref_ascending (series_take ref cols)) as Hperm.
    assert ((sort_values snd ref_ascending (series_take ref cols)).*1 ≡ₚ cols) as Hperm1.
    { rewrite Hperm. by rewrite series_take_labels. }
    split_and!.
    + done.
    + by rewrite Hperm1.
    + intros c. by rewrite Hperm1.
    + intros c v Hin. rewrite Hperm in Hin. by eapply series_take_elem.
    + intros r' (r0 & -> & Hr0)%list_elem_of_fmap.
      destruct (Hrows r0 Hr0) as (r & Hr & Hl & Hv).
      exists r. simpl. split_and!; [done | done |].
      rewrite Hv. apply row_take_row_take.
      intros c Hc. by rewrite Hperm1 in Hc.
  - split_and!.
    + by rewrite series_take_labels.
    + done.
    + done.
    + intros c v Hin. by eapply series_take_elem.
    + done.
Qed.


(** *** Runs that return *)

Lemma NoDup_filter_fst {A} (P : string * A -> Prop) `{!forall x, Decision (P x)}
    (l : list (string * A)) :
  NoDup l.*1 -> NoDup (filter P l).*1.
Proof.
  induction l as [|x l IH]; intros Hnd; [done|].
  rewrite fmap_cons in Hnd. apply NoDup_cons in Hnd as [Hx Hnd].
  rewrite filter_cons. destruct (decide (P x)); [|by apply IH].
  rewrite fmap_cons. apply NoDup_cons. split; [|by apply IH].
  intros (y & Hy & Hin)%list_elem_of_fmap. apply list_elem_of_filter in Hin as [_ Hin].
  apply Hx. apply list_elem_of_fmap. by exists y.
Qed.

Lemma filter_label_unique {A} (l : list (string * A)) (k : string) :
  NoDup l.*1 -> (length (filter (fun c => c.1 = k) l) <= 1)%nat.
Proof.
  induction l as [|[k' v] l IH]; intros Hnd; [simpl; lia|].
  rewrite fmap_cons in Hnd. apply NoDup_cons in Hnd as [Hx Hnd]. simpl in Hx.
  rewrite filter_cons. simpl. destruct (decide (k' = k)) as [-> | Hne]; [|by apply IH].
  assert (filter (fun c : string * A => c.1 = k) l = []) as ->; [|simpl; lia].
  destruct (filter _ l) as [|c cs] eqn:Hf; [done|]. exfalso.
  assert (c ∈ filter (fun c : string * A => c.1 = k) l) as Hc by (rewrite Hf; left).
  apply list_elem_of_filter in Hc as [Hck Hc].
  apply Hx. apply list_elem_of_fmap. by exists c.
Qed.

(** With distinct labels on the right the outer join keeps the number of
    rows. *)
Lemma merge_outer_length scores confidence_intervals :
  NoDup confidence_intervals.*1 ->
  length (merge_outer scores confidence_intervals) = length scores.
Proof.
  intros Hnd. unfold merge_outer.
  rewrite <- (Permutation_length (join_order_perm scores confidence_intervals)).
  induction (join_order scores confidence_intervals) as [|r l IH]; [done|].
  cbn [flat_map]. rewrite length_app, IH. cbn [length]. f_equal.
  pose proof (filter_label_unique confidence_intervals r.1 Hnd) as Hle.
  destruct (filter _ confidence_intervals) as [|c [|c' cs]]; simpl in *; [done | done | lia].
Qed.

Lemma select_indices_NoDup scores nfeatures sel :
  NoDup scores.*1 -> valid_threshold nfeatures -> selects_once (length scores) nfeatures ->
  select_indices scores nfeatures = Ok sel -> NoDup sel.
Proof.
  intros Hnd Hv Honce. destruct nfeatures as [n | x]; unfold valid_threshold, selects_once in *.
  - rewrite select_indices_count by done. intros [= <-].
    apply slices_disjoint; [lia | by rewrite length_fmap | done].
  - unfold select_indices. destruct (lt_one (Float x)); [|done].
    intros H. apply result_bind_Ok in H as (hi & _ & H).
    apply result_bind_Ok in H as (lo & _ & H).
    injection H as <-. by apply NoDup_filter_fst.
Qed.

Lemma bootstrap_length function features ref scores nfeatures nsampling confidence g boot g1 :
  NoDup scores.*1 -> valid_threshold nfeatures -> selects_once (length scores) nfeatures ->
  bootstrap function features ref scores nfeatures nsampling confidence g = Ok (boot, g1) ->
  length boot.2 = length scores.
Proof.
  intros Hnd Hv Honce. unfold bootstrap.
  destruct (nsampling <? 2); [|destruct (nsample features <? 3)]; intros H; monad_inv;
    simpl; try apply length_fmap.
  apply merge_outer_length.
  rewrite <- list_fmap_compose. simpl. rewrite list_fmap_id.
  by eapply select_indices_NoDup.
Qed.

Lemma compute_scores_NoDup function features ref :
  NoDup (index features) -> NoDup (compute_scores function features ref).*1.
Proof.
  intros Hnd. unfold compute_scores. rewrite sort_values_perm.
  by rewrite <- list_fmap_compose.
Qed.

(** With a known metric, a documented threshold that selects no label twice,
    distinct feature labels, at least one feature row and [nperm >= 1], the
    run returns a table. *)
Lemma compute_against_reference_returns features ref nfeatures ascending nsampling
    confidence nperm g :
  NoDup (index features) ->
  valid_threshold nfeatures ->
  selects_once (length (rows features)) nfeatures ->
  1 <= nperm ->
  rows features <> [] ->
  exists tbl g2,
    compute_against_reference features ref (literal "information_coef") nfeatures ascending
      nsampling confidence nperm g = Ok (tbl, g2).
Proof.
  intros Hnd Hv Honce Hnperm Hrows.
  pose (function := information_coefficient).
  pose proof (compute_scores_length function features ref) as Hlen.
  rewrite <- Hlen in Honce.
  destruct (total_bootstrap function features ref (compute_scores function features ref)
              nfeatures nsampling confidence Hv g) as (boot & g1 & Hb).
  destruct (total_permutation_scores function features ref nperm ltac:(lia) g1)
    as (null_scores & g2 & Hp).
  rewrite (compute_against_reference_intro_rows features ref (literal "information_coef")
             _ _ _ _ _ _ function _ _ _ _ eq_refl Hb Hp Hrows).
  apply bootstrap_length in Hb; [|by apply compute_scores_NoDup|done..].
  apply permutation_scores_shape in Hp as (_ & Hns & _).
  destruct (pvals_loop_total null_scores nperm boot.2 0 (empty_frame features))
    as [frame Hframe]; [done | simpl; lia |].
  rewrite <- Hns, Hframe. by eexists _, _.
Qed.

(** C2. With [nperm >= 1] and at least one feature row, every local p-value
    of the returned table is a number in [1/nperm, 1] and every global p-value
    a number in [1/(nperm * n), 1], [n] the number of feature rows: none is
    NaN, none is 0.  And the run does return a table when the metric is known,
    the feature labels are distinct and the threshold is a documented one that
    selects no label twice. *)
Theorem pvalues_within_bounds features ref nfeatures ascending nsampling confidence
    nperm :
  1 <= nperm ->
  rows features <> [] ->
  (forall g, NoDup (index features) -> valid_threshold nfeatures ->
     selects_once (length (rows features)) nfeatures ->
     exists tbl g2,
       compute_against_reference features ref (literal "information_coef") nfeatures ascending
         nsampling confidence nperm g = Ok (tbl, g2)) /\
  (forall metric g tbl g2,
     compute_against_reference features ref metric nfeatures ascending nsampling
       confidence nperm g = Ok (tbl, g2) ->
     forall r, r ∈ table_rows tbl ->
       exists pl pg : Q,
         local_pvalue r = Num pl /\ global_pvalue r = Num pg /\
         (1 / inject_Z nperm <= pl)%Q /\ (pl <= 1)%Q /\
         (1 / inject_Z (nperm * Z.of_nat (length (rows features))) <= pg)%Q /\
         (pg <= 1)%Q /\
         (0 < pl)%Q /\ (0 < pg)%Q).
Proof.
  intros Hnperm Hrows. split.
  { intros g Hnd Hv Honce. by apply compute_against_reference_returns. }
  intros metric g tbl g2 Hrun r Hr.
  destruct (table_row_anatomy _ _ _ _ _ _ _ _ _ _ _ _ Hrun Hr)
    as (function & null_scores & g1 & j & f & v & Hp & _ & _ & _ & Hs & Hlp & Hgp).
  apply permutation_scores_shape in Hp as (_ & _ & Hrow & Hall).
  assert (1 <= Z.of_nat (length (rows features))) as Hn.
  { destruct (rows features); [done | simpl; lia]. }
  pose proof (scored_at_range _ _ _ j f v Hnperm Hn Hrow) as Hrange.
  rewrite Nat2Z.id in Hrange.
  destruct (Hrange Hall Hs) as (pl & pg & -> & H1 & H2 & H3 & H4 & H5 & H6 & _).
  exists pl, pg. split_and!; done.
Qed.

Lemma bootstrap_column_label function features ref scores nfeatures nsampling confidence
    g boot g1 :
  bootstrap function features ref scores nfeatures nsampling confidence g = Ok (boot, g1) ->
  boot.1 = None \/ boot.1 = Some confidence.
Proof.
  unfold bootstrap.
  destruct (nsampling <? 2); [|destruct (nsample features <? 3)];
    intros H; monad_inv; simpl; auto.
Qed.


(** *** The generator decides the outputs *)

Lemma swap_length {A} i j (l : list A) : length (swap i j l) = length l.
Proof.
  unfold swap. destruct (l !! i), (l !! j); try done. by rewrite !length_insert.
Qed.

Lemma shuffle_from_length {A} i (l : list A) g l' g1 :
  shuffle_from i l g = Ok (l', g1) -> length l' = length l.
Proof.
  revert l g. induction i as [|i IH]; intros l g H; simpl in H; monad_inv; [done|].
  match goal with H : shuffle_from i _ _ = Ok _ |- _ => apply IH in H as -> end.
  apply swap_length.
Qed.

Lemma takes_ret {A} (a : A) : takes 0 (mret a).
Proof. intros g1 g2 _. by split_and!. Qed.

Lemma takes_raise {A} n e : takes n (@raise A e).
Proof. by intros g1 g2 _. Qed.

Lemma takes_lift {A} (r : result A) : takes 0 (lift r).
Proof. intros g1 g2 _. unfold lift. destruct r; [by split_and! | done]. Qed.

Lemma takes_draw_below bound : takes 1 (draw_below bound).
Proof.
  intros g1 g2 Hg. unfold draw_below. split_and!; [|done..].
  by rewrite (Hg 0%nat) by lia.
Qed.

Lemma takes_eq {A} n n' (m : M A) : n = n' -> takes n m -> takes n' m.
Proof. by intros ->. Qed.

(** The values taken add up along a bind. *)
Lemma takes_bind {A B} n1 n2 (P : A -> Prop) (m : M A) (k : A -> M B) :
  takes n1 m ->
  (forall g a g1, m g = Ok (a, g1) -> P a) ->
  (forall a, P a -> takes n2 (k a)) ->
  takes (n1 + n2) (m ≫= k).
Proof.
  intros Hm HP Hk g1 g2 Hg.
  assert (same_next n1 g1 g2) as Hg1 by (intros i Hi; apply Hg; lia).
  specialize (Hm g1 g2 Hg1). unfold mbind, M_bind.
  destruct (m g1) as [[a1 h1]|e1] eqn:E1, (m g2) as [[a2 h2]|e2] eqn:E2; try done.
  destruct Hm as (<- & Hh1 & Hh2).
  assert (same_next n2 h1 h2) as Hh.
  { intros i Hi. rewrite Hh1, Hh2. unfold advance. apply Hg. lia. }
  specialize (Hk a1 (HP _ _ _ E1) h1 h2 Hh).
  destruct (k a1 h1) as [[b1 f1]|d1], (k a1 h2) as [[b2 f2]|d2]; try done.
  destruct Hk as (-> & Hf1 & Hf2). split_and!; [done| |].
  - intros i. rewrite Hf1. unfold advance. rewrite Hh1. unfold advance. f_equal. lia.
  - intros i. rewrite Hf2. unfold advance. rewrite Hh2. unfold advance. f_equal. lia.
Qed.

Lemma takes_then_ret {A B} n (m : M A) (f : A -> B) :
  takes n m -> takes n (a ← m; mret (f a)).
Proof.
  intros Hm. apply (takes_eq (n + 0)); [lia|].
  apply (takes_bind n 0 (fun _ => True)); [done | done |].
  intros a _. apply takes_ret.
Qed.

Lemma takes_shuffle_from {A} i (l : list A) : takes i (shuffle_from i l).
Proof.
  revert l. induction i as [|i IH]; intros l; simpl; [apply takes_ret|].
  apply (takes_bind 1 i (fun _ => True)); [apply takes_draw_below | done | auto].
Qed.

Lemma takes_random_choice {A} (a : list A) size : takes size (random_choice a size).
Proof.
  induction size as [|size IH]; simpl; [apply takes_ret|].
  apply (takes_bind 1 size (fun _ => True)); [apply takes_draw_below | done |].
  intros i _. by apply takes_then_ret.
Qed.

Lemma takes_repeat_m {A} n c (m : M A) : takes c m -> takes (n * c) (repeat_m n m).
Proof.
  intros Hm. induction n as [|n IH]; simpl; [apply takes_ret|].
  apply (takes_bind c (n * c) (fun _ => True)); [done | done |].
  intros x _. by apply takes_then_ret.
Qed.

Lemma takes_shuffles n (l : list pyfloat) :
  takes (n * (length l - 1)) (shuffles n l).
Proof.
  revert l. induction n as [|n IH]; intros l; simpl; [apply takes_ret|].
  apply (takes_bind (length l - 1) (n * (length l - 1))
           (fun s => length s = length l)).
  - apply takes_shuffle_from.
  - intros g s g1 H. by eapply shuffle_from_length.
  - intros s Hs. rewrite <- Hs. apply takes_then_ret, IH.
Qed.

Lemma takes_bootstrap function features ref scores nfeatures nsampling confidence :
  takes (bootstrap_draws features nsampling)
        (bootstrap function features ref scores nfeatures nsampling confidence).
Proof.
  unfold bootstrap, bootstrap_draws.
  destruct (nsampling <? 2); [apply takes_ret|].
  destruct (nsample features <? 3); cbn [orb]; [apply takes_ret|].
  apply (takes_bind 0 (Z.to_nat nsampling * Z.to_nat (nsample features))
           (fun _ => True)); [apply takes_lift | done |].
  intros sel _. apply takes_then_ret, takes_repeat_m.
  unfold bootstrap_replicate. apply takes_then_ret, takes_random_choice.
Qed.

Lemma takes_permutation_scores function features ref nperm :
  takes (permutation_draws ref nperm) (permutation_scores function features ref nperm).
Proof.
  unfold permutation_scores, permutation_draws.
  destruct (nperm <? 0); [apply takes_raise|].
  apply (takes_eq (Z.to_nat nperm * (length ref.*2 - 1))); [by rewrite length_fmap|].
  apply takes_then_ret, takes_shuffles.
Qed.

Lemma takes_compute_against_reference features ref metric nfeatures ascending nsampling
    confidence nperm :
  takes (bootstrap_draws features nsampling + permutation_draws ref nperm)
        (compute_against_reference features ref metric nfeatures ascending nsampling
           confidence nperm).
Proof.
  unfold compute_against_reference.
  apply (takes_bind 0 _ (fun _ => True)); [apply takes_lift | done |].
  intros function _.
  apply (takes_bind _ _ (fun _ => True)); [apply takes_bootstrap | done |].
  intros boot _.
  apply (takes_eq (permutation_draws ref nperm + 0)); [lia|].
  apply (takes_bind _ 0 (fun _ => True)); [apply takes_permutation_scores | done |].
  intros null_scores _.
  apply (takes_bind 0 0 (fun _ => True)); [apply takes_lift | done |].
  intros frame _.
  apply (takes_bind 0 0 (fun _ => True)); [apply takes_lift | done |].
  intros fdrs _. apply takes_ret.
Qed.


End EngineProperties.

(** ** Runs on concrete inputs *)

Lemma select_indices_top_and_bottom_witness :
  exists first last : list (string * pyfloat),
    select_indices (compute_scores dot_product three_features three_samples) (Int 1)
    = Ok (first.*1 ++ last.*1) /\
    length first = 1%nat /\ length last = 1%nat.
Proof.
  destruct (@select_indices_top_and_bottom dot_product_externals 1 ltac:(lia))
    as (Hselect & Hsorted & _).
  destruct (Hselect true (compute_scores dot_product three_features three_samples)
              (Hsorted dot_product three_features three_samples))
    as (first & rest & rest' & last & Hsel & _ & _ & Hfirst & Hlast & _).
  exists first, last. split_and!; [exact Hsel | exact Hfirst | exact Hlast].
Defined.

(** C4, as the spec states it, fails on a table with a NaN score.  The scores
    of [three_features] are B: 0, A: 2, C: NaN.  With [n = 1] the selection is
    B and C: feature A, whose metric value is the highest, is not selected,
    and feature C, whose score the spec ranks lowest, is taken as the
    highest-ranked. *)
Lemma count_selection_takes_nan_as_highest :
  let scores := compute_scores dot_product three_features three_samples in
  scores = [("B", Num 0); ("A", Num 2); ("C", NaN)]%string /\
  select_indices scores (Int 1) = Ok ["B"; "C"]%string /\
  ("A"%string ∉ ["B"; "C"]%string) /\
  forall l p, (l, Num p) ∈ scores -> (p <= 2)%Q.
Proof.
  assert (compute_scores dot_product three_features three_samples
          = [("B", Num 0); ("A", Num 2); ("C", NaN)]%string) as Hscores
    by (vm_compute; reflexivity).
  cbv zeta. rewrite Hscores. split; [done|]. split; [reflexivity|]. split.
  - intros H. repeat (apply elem_of_cons in H as [H | H]; [discriminate|]).
    by apply elem_of_nil in H.
  - intros l p H. apply list_elem_of_In in H. simpl in H.
    destruct H as [E|[E|[E|[]]]]; [| |discriminate E];
      injection E as _ <-; unfold Qle; simpl; lia.
Qed.

Lemma pvalues_within_bounds_witness :
  exists tbl g2,
    two_permutations two_features (counter_stream 0) = Ok (tbl, g2) /\
    forall r, r ∈ table_rows tbl ->
      exists pl pg : Q,
        local_pvalue r = Num pl /\ global_pvalue r = Num pg /\
        (1 / inject_Z 2 <= pl)%Q /\ (pl <= 1)%Q /\
        (1 / inject_Z (2 * 2) <= pg)%Q /\ (pg <= 1)%Q.
Proof.
  destruct (@pvalues_within_bounds dot_product_externals two_features three_samples
              (Float (95 # 100)) false 0 (95 # 100) 2 ltac:(lia) ltac:(discriminate))
    as [Hreturns Hbounds].
  destruct (Hreturns (counter_stream 0)) as (tbl & g2 & Hrun).
  - apply (bool_decide_unpack (NoDup (index two_features))). vm_compute. exact I.
  - by split.
  - exact I.
  - exists tbl, g2. split; [exact Hrun|].
    intros r Hr.
    destruct (Hbounds _ _ _ _ Hrun r Hr) as (pl & pg & Hl & Hg & H1 & H2 & H3 & H4 & _).
    exists pl, pg. split_and!; done.
Defined.

Lemma nan_score_gets_smallest_pvalues_witness :
  exists tbl g2,
    two_permutations three_features (counter_stream 0) = Ok (tbl, g2) /\
    exists r,
      r ∈ table_rows tbl /\ feature r = "C"%string /\ metric_value r = NaN /\
      local_pvalue r = Num (1 / inject_Z 2) /\
      global_pvalue r = Num (1 / inject_Z (2 * 3)).
Proof.
  eexists _, _. split; [vm_compute; reflexivity|].
  eexists. split; [do 2 right; left|].
  split; [reflexivity|]. split; [reflexivity|].
  eapply (@nan_score_gets_smallest_pvalues dot_product_externals three_features
            three_samples (literal "information_coef") (Float (95 # 100)) false 0 (95 # 100) 2
            (counter_stream 0) _ _ ltac:(lia)).
  - apply (bool_decide_unpack (NoDup (index three_features))). vm_compute. exact I.
  - vm_compute. reflexivity.
  - do 2 right. left.
  - reflexivity.
Defined.


Lemma no_rows_raise_in_the_correction_witness :
  two_permutations no_features (counter_stream 0) = Err ZeroDivisionError.
Proof.
  destruct (@no_rows_raise_in_the_correction dot_product_externals no_features
              three_samples (Float (95 # 100)) false 0 (95 # 100) 2 (counter_stream 0))
    as (_ & _ & _ & H); [reflexivity | by split | lia | exact H].
Defined.

(** C8, as the spec states it, fails: on a matrix with columns and no rows the
    run does not return an empty table, it raises ZeroDivisionError. *)
Lemma no_rows_run_raises :
  rows no_features = [] /\
  two_permutations no_features (counter_stream 0) = Err ZeroDivisionError /\
  ~ exists tbl g2, two_permutations no_features (counter_stream 0) = Ok (tbl, g2).
Proof.
  split; [reflexivity|]. split; [vm_compute; reflexivity|].
  intros (tbl & g2 & H). vm_compute in H. discriminate H.
Qed.

Lemma zero_permutations_divide_by_zero_witness :
  @compute_against_reference dot_product_externals two_features three_samples
    (literal "information_coef") (Float (95 # 100)) false 0 (95 # 100) 0 (counter_stream 0)
  = Err ZeroDivisionError.
Proof.
  destruct (@zero_permutations_divide_by_zero dot_product_externals two_features
              three_samples (Float (95 # 100)) false 0 (95 # 100))
    as [H _]; [discriminate|].
  apply H. by split.
Defined.




(** C1 fails on the code. The table is sorted by score before the loop over
    its rows, and the loop reads the null scores at the position in the table,
    not at the feature's row of the matrix.  Feature B, row 1 of the matrix,
    scores 0 and both its null scores, 2 and 2, exceed that: the claim gives
    the local p-value 2/2.  B is row 0 of the sorted table; the code compares
    its score with the null scores 0 and 0 of feature A, counts none and
    reports 1/2. *)
Theorem local_pvalue_reads_row_at_table_position :
  exists tbl g2 null_scores g3 r,
    two_permutations two_features (counter_stream 0) = Ok (tbl, g2) /\
    permutation_scores dot_product two_features three_samples 2 (counter_stream 0)
      = Ok (null_scores, g3) /\
    index two_features = ["A"; "B"]%string /\
    null_scores !! 0%nat = Some [Num 0; Num 0] /\
    null_scores !! 1%nat = Some [Num 2; Num 2] /\
    r ∈ table_rows tbl /\ feature r = "B"%string /\ metric_value r = Num 0 /\
    pvalue (count_exceeding [Num 2; Num 2] (metric_value r)) 2 = Ok (Num (2 # 2)) /\
    pvalue (count_exceeding [Num 0; Num 0] (metric_value r)) 2 = Ok (Num (1 # 2)) /\
    local_pvalue r = Num (1 # 2).
Proof.
  eexists _, _, _, _, _. split; [vm_compute; reflexivity|].
  split; [vm_compute; reflexivity|].
  split; [reflexivity|]. split; [reflexivity|]. split; [reflexivity|].
  split; [right; left|]. by split_and!.
Qed.

(** * Further properties of the engine *)

(** ** One row for each feature *)

Lemma pvals_loop_Ok_length null_scores nperm nrows scores : forall i frame frame',
  pvals_loop null_scores nperm nrows i scores frame = Ok frame' ->
  scores = [] \/ (i + length scores <= length null_scores)%nat.
Proof.
  induction scores as [|f scores IH]; intros i frame frame' H; [by left|].
  right. simpl in H. apply result_bind_Ok in H as (frame1 & Hstep & H).
  unfold pvals_step in Hstep.
  destruct (null_scores !! i) as [nulls|] eqn:Hi; [|discriminate].
  apply lookup_lt_Some in Hi.
  apply IH in H as [-> | H]; simpl; lia.
Qed.

Lemma flat_map_length_ge {A B} (f : A -> list B) (l : list A) :
  (forall x, x ∈ l -> (1 <= length (f x))%nat) ->
  (length l <= length (flat_map f l))%nat.
Proof.
  induction l as [|x l IH]; intros Hf; [done|].
  cbn [flat_map]. rewrite length_app. cbn [length].
  pose proof (Hf x (list_elem_of_here _ _)).
  assert (length l <= length (flat_map f l))%nat; [|lia].
  apply IH. intros y Hy. apply Hf. by right.
Qed.

(** Blocks that are not empty and in all no more than the list has elements:
    each block has one element. *)
Lemma flat_map_blocks_of_one {A B} (f : A -> list B) (l : list A) :
  (forall x, x ∈ l -> (1 <= length (f x))%nat) ->
  (length (flat_map f l) <= length l)%nat ->
  forall x, x ∈ l -> length (f x) = 1%nat.
Proof.
  induction l as [|a l IH]; intros Hf Hlen x Hx; [by apply elem_of_nil in Hx|].
  cbn [flat_map] in Hlen. rewrite length_app in Hlen. cbn [length] in Hlen.
  pose proof (Hf a (list_elem_of_here _ _)) as Ha.
  assert (length l <= length (flat_map f l))%nat as Hl.
  { apply flat_map_length_ge. intros y Hy. apply Hf. by right. }
  apply elem_of_cons in Hx as [-> | Hx]; [lia|].
  apply IH; [|lia|done]. intros y Hy. apply Hf. by right.
Qed.

Lemma flat_map_fst_blocks_of_one {A B} (f : A -> list (A * B)) (l : list A) :
  (forall x, x ∈ l -> length (f x) = 1%nat /\ forall b, b ∈ f x -> b.1 = x) ->
  (flat_map f l).*1 = l.
Proof.
  induction l as [|a l IH]; intros Hf; [done|].
  cbn [flat_map]. rewrite fmap_app.
  destruct (Hf a (list_elem_of_here _ _)) as [Hlen Hfst].
  destruct (f a) as [|b [|b' bs]]; try discriminate.
  assert (b.1 = a) as Hb by (apply Hfst; left).
  simpl. rewrite Hb. f_equal.
  apply IH. intros y Hy. apply Hf. by right.
Qed.

(** An outer join that does not add rows keeps each row once, in the order of
    the labels. *)
Lemma merge_outer_rows scores confidence_intervals :
  (length (merge_outer scores confidence_intervals) <= length scores)%nat ->
  (merge_outer scores confidence_intervals).*1 = join_order scores confidence_intervals.
Proof.
  unfold merge_outer. intros Hlen.
  rewrite <- (Permutation_length (join_order_perm scores confidence_intervals)) in Hlen.
  match goal with |- context [flat_map ?f _] => set (block := f) in * end.
  assert (forall r, (1 <= length (block r))%nat /\ forall b, b ∈ block r -> b.1 = r)
    as Hblock.
  { intros [k v]. unfold block.
    destruct (filter _ confidence_intervals) as [|c cs]; simpl.
    - split; [lia|]. by intros b ->%list_elem_of_singleton.
    - split; [lia|]. intros b Hb.
      change ((k, v, c.2) :: map (fun c0 : string * pyfloat => (k, v, c0.2)) cs)
        with (map (fun c0 : string * pyfloat => (k, v, c0.2)) (c :: cs)) in Hb.
      by apply list_elem_of_fmap in Hb as (c' & -> & _). }
  apply flat_map_fst_blocks_of_one. intros r Hr. split; [|apply Hblock].
  apply (flat_map_blocks_of_one block (join_order scores confidence_intervals)); [|exact Hlen|exact Hr].
  intros x _. apply Hblock.
Qed.

Lemma filter_label_one {A B} (frame : list (string * A * B)) (l : string) :
  NoDup frame.*1.*1 -> l ∈ frame.*1.*1 ->
  exists e, filter (fun e : string * A * B => e.1.1 = l) frame = [e] /\ e.1.1 = l.
Proof.
  induction frame as [|[[k a] b] frame IH]; intros Hnd Hin; [by apply elem_of_nil in Hin|].
  rewrite !fmap_cons in Hnd, Hin. simpl in Hnd, Hin.
  apply NoDup_cons in Hnd as [Hk Hnd].
  rewrite filter_cons. simpl. destruct (decide (k = l)) as [-> | Hne].
  - exists (l, a, b). split; [|done]. f_equal.
    destruct (filter _ frame) as [|e es] eqn:Hf; [done|]. exfalso.
    assert (e ∈ filter (fun e : string * A * B => e.1.1 = l) frame) as He
      by (rewrite Hf; left).
    apply list_elem_of_filter in He as [Hel He]. apply Hk. rewrite <- Hel.
    apply list_elem_of_fmap. exists e.1. split; [done|].
    apply list_elem_of_fmap. by exists e.
  - apply IH; [done|]. by apply elem_of_cons in Hin as [-> | Hin].
Qed.

(** An inner join with a frame that has each label once keeps the rows. *)
Lemma merge_pvals_rows_once scores frame :
  NoDup frame.*1.*1 ->
  (forall b, b ∈ scores -> b.1.1 ∈ frame.*1.*1) ->
  map (fun r => (feature r, metric_value r)) (merge_pvals scores frame) = scores.*1.
Proof.
  intros Hnd. unfold merge_pvals.
  induction scores as [|[[k v] m] scores IH]; intros Hin; [done|].
  cbn [flat_map]. rewrite map_app, IH by (intros b Hb; apply Hin; by right).
  destruct (filter_label_one frame k Hnd) as (e & He & _).
  { apply (Hin (k, v, m)). left. }
  cbn [fst snd]. by rewrite He.
Qed.

Section FurtherEngineProperties.

Context {externals : Externals}.

Lemma metric_function_Ok metric function :
  metric_function metric = Ok function ->
  metric = literal "information_coef" /\ function = information_coefficient.
Proof.
  unfold metric_function, is_literal, literal. destruct metric as [t [|]]; simpl; [|done].
  destruct (String.eqb_spec t "information_coef") as [->|]; [|done].
  by intros [= <-].
Qed.

Lemma bootstrap_rows_once function features ref scores nfeatures nsampling confidence
    g boot g1 :
  bootstrap function features ref scores nfeatures nsampling confidence g = Ok (boot, g1) ->
  (length boot.2 <= length scores)%nat ->
  boot.2.*1 ≡ₚ scores.
Proof.
  unfold bootstrap.
  destruct (nsampling <? 2); [|destruct (nsample features <? 3)]; intros H; monad_inv;
    simpl.
  1,2: intros _; assert ((map (fun r : string * pyfloat => (r.1, r.2, NaN)) scores).*1
                         = scores) as ->; [|done];
       induction scores as [|[k v] scores IH]; [done | simpl; by f_equal].
  intros Hlen. rewrite merge_outer_rows by done. apply join_order_perm.
Qed.

Lemma compute_scores_index function features ref :
  (compute_scores function features ref).*1 ≡ₚ index features.
Proof.
  unfold compute_scores. rewrite sort_values_perm. by rewrite <- list_fmap_compose.
Qed.

(** X1. Whenever the run returns and the feature labels are distinct, the
    table has exactly one row for each feature; the row carries the metric of
    that feature's values against the reference; and the rows are in the
    requested order of the metric value, NaN last. *)
Theorem table_has_one_row_per_feature features ref metric nfeatures ascending nsampling
    confidence nperm g tbl g2 :
  NoDup (index features) ->
  compute_against_reference features ref metric nfeatures ascending nsampling
    confidence nperm g = Ok (tbl, g2) ->
  feature <$> table_rows tbl ≡ₚ index features /\
  Sorted (by_value metric_value ascending) (table_rows tbl) /\
  forall r, r ∈ table_rows tbl ->
    exists values, (feature r, values) ∈ rows features /\
      metric_value r = information_coefficient values ref.*2.
Proof.
  intros Hnd (function & boot & g1 & ns & frame & Hm & Hb & Hp & Hl & ->)
           %compute_against_reference_Ok.
  apply metric_function_Ok in Hm as [-> ->]. simpl.
  pose proof (bootstrap_rows _ _ _ _ _ _ _ _ _ _ Hb) as [Hrows Hnil].
  assert (length boot.2 <= length (compute_scores information_coefficient features ref))%nat
    as Hlen.
  { apply permutation_scores_shape in Hp as (_ & Hns & _).
    rewrite compute_scores_length, <- Hns.
    apply pvals_loop_Ok_length in Hl as [-> | Hl]; simpl; lia. }
  pose proof (bootstrap_rows_once _ _ _ _ _ _ _ _ _ _ Hb Hlen) as Hboot.
  apply pvals_loop_spec in Hl as [Hlabels _].
  assert ((empty_frame features).*1 = index features) as Hempty.
  { unfold empty_frame. rewrite <- list_fmap_compose. apply list_fmap_id. }
  set (frame' := zip frame (fdr_bh_correction (map (fun e => e.2.2) frame))).
  assert (frame'.*1 = frame) as Hframe'.
  { apply fst_zip. unfold fdr_bh_correction. by rewrite length_imap, length_map. }
  assert (map (fun r => (feature r, metric_value r)) (merge_pvals boot.2 frame')
          = boot.2.*1) as Hmerge.
  { apply merge_pvals_rows_once.
    - by rewrite Hframe', Hlabels, Hempty.
    - intros b Hb'. rewrite Hframe', Hlabels, Hempty.
      apply Hrows, compute_scores_labels in Hb' as (r & Hr & <- & _).
      apply list_elem_of_fmap. by exists r. }
  split_and!.
  - rewrite sort_values_perm.
    transitivity ((map (fun r => (feature r, metric_value r))
                     (merge_pvals boot.2 frame')).*1).
    { by rewrite <- list_fmap_compose. }
    rewrite Hmerge, Hboot. apply compute_scores_index.
  - apply sort_values_sorted.
  - intros r Hr. rewrite sort_values_perm in Hr.
    assert ((feature r, metric_value r) ∈ boot.2.*1) as Hin.
    { rewrite <- Hmerge. apply list_elem_of_fmap. by exists r. }
    rewrite Hboot in Hin.
    apply compute_scores_labels in Hin as ([k values] & Hin & Hk & Hv). simpl in *.
    subst k. by exists values.
Qed.

End FurtherEngineProperties.

(** ** A count that makes the two slices overlap *)

Lemma pvals_loop_IndexError null_scores nperm scores : forall i frame,
  1 <= nperm ->
  (i <= length null_scores)%nat ->
  (length null_scores < i + length scores)%nat ->
  pvals_loop null_scores nperm (Z.of_nat (length null_scores)) i scores frame
  = Err IndexError.
Proof.
  induction scores as [|f scores IH]; intros i frame Hp Hi Hlen; simpl in *; [lia|].
  unfold pvals_step.
  destruct (null_scores !! i) as [nulls|] eqn:Hlookup.
  - apply lookup_lt_Some in Hlookup as Hlt. simpl.
    rewrite (pvalue_pos _ nperm) by lia.
    rewrite (pvalue_pos _ (nperm * _)) by nia. simpl.
    apply IH; [done | lia | lia].
  - done.
Qed.

Lemma flat_map_length_gt {A B} (f : A -> list B) (l : list A) (x : A) :
  (forall y, y ∈ l -> (1 <= length (f y))%nat) ->
  x ∈ l -> (2 <= length (f x))%nat ->
  (length l < length (flat_map f l))%nat.
Proof.
  induction l as [|a l IH]; intros Hf Hx Hx2; [by apply elem_of_nil in Hx|].
  cbn [flat_map]. rewrite length_app. cbn [length].
  pose proof (Hf a (list_elem_of_here _ _)) as Ha.
  assert (length l <= length (flat_map f l))%nat as Hl.
  { apply flat_map_length_ge. intros y Hy. apply Hf. by right. }
  apply elem_of_cons in Hx as [-> | Hx]; [lia|].
  assert (length l < length (flat_map f l))%nat; [|lia].
  apply IH; [|done..]. intros y Hy. apply Hf. by right.
Qed.

Lemma filter_label_map_ge {B} (f : string -> string * B) (sel : list string) (l : string) :
  (forall idx, (f idx).1 = idx) ->
  l ∈ sel ->
  (1 <= length (filter (fun c : string * B => c.1 = l) (map f sel)))%nat.
Proof.
  intros Hf Hin.
  assert (f l ∈ filter (fun c : string * B => c.1 = l) (map f sel)) as H.
  { apply list_elem_of_filter. split; [apply Hf|]. apply list_elem_of_fmap. by exists l. }
  destruct (filter _ _); [by apply elem_of_nil in H | simpl; lia].
Qed.

(** A label at the overlap of [index[:n]] and [index[-n:]]. *)
Lemma slices_overlap {A} (n : Z) (l : list A) :
  1 <= n -> l <> [] -> (length l < 2 * Z.to_nat n)%nat ->
  exists x, x ∈ slice_head n l /\ x ∈ slice_tail n l.
Proof.
  intros Hn Hl Hlen. unfold slice_head, slice_tail.
  assert (length l - Z.to_nat n < length l)%nat as Hp.
  { destruct l; [done | cbn [length]; lia]. }
  destruct (lookup_lt_is_Some_2 l _ Hp) as [x Hx]. exists x. split.
  - apply list_elem_of_lookup. exists (length l - Z.to_nat n)%nat.
    rewrite lookup_take_lt by lia. done.
  - apply list_elem_of_lookup. exists 0%nat.
    rewrite lookup_drop, Nat.add_0_r. done.
Qed.

Lemma merge_outer_length_gt scores confidence_intervals l :
  l ∈ scores.*1 ->
  (2 <= length (filter (fun c : string * pyfloat => c.1 = l) confidence_intervals))%nat ->
  (length scores < length (merge_outer scores confidence_intervals))%nat.
Proof.
  intros (r & -> & Hr)%list_elem_of_fmap Hl. unfold merge_outer.
  rewrite <- (Permutation_length (join_order_perm scores confidence_intervals)).
  apply (flat_map_length_gt _ _ r).
  - intros y _. clear Hl. destruct (filter _ confidence_intervals); simpl; lia.
  - by rewrite join_order_perm.
  - destruct (filter _ confidence_intervals) as [|c [|c' cs]]; simpl in *; lia.
Qed.

Section OverlappingSelection.

Context {externals : Externals}.

(** X2. A count [n] with fewer than [2n] feature rows makes [index[:n]] and
    [index[-n:]] share a label; when the bootstrap runs, the outer join of line
    338 then has more rows than the feature matrix and the loop of line 353
    reads past the last row of [permutation_scores]: the run raises
    IndexError. *)
Theorem overlapping_count_raises_IndexError features ref n ascending nsampling
    confidence nperm g :
  1 <= n ->
  rows features <> [] ->
  (length (rows features) < 2 * Z.to_nat n)%nat ->
  2 <= nsampling ->
  3 <= nsample features ->
  1 <= nperm ->
  compute_against_reference features ref (literal "information_coef") (Int n) ascending
    nsampling confidence nperm g = Err IndexError.
Proof.
  intros Hn Hrows Hlen Hns Hsample Hnperm.
  pose (function := information_coefficient).
  pose proof (compute_scores_length function features ref) as Hslen.
  destruct (total_bootstrap function features ref (compute_scores function features ref)
              (Int n) nsampling confidence Hn g) as (boot & g1 & Hb).
  destruct (total_permutation_scores function features ref nperm ltac:(lia) g1)
    as (null_scores & g2 & Hp).
  rewrite (compute_against_reference_intro features ref (literal "information_coef") _ _ _ _ _ _
             function _ _ _ _ eq_refl Hb Hp).
  apply permutation_scores_shape in Hp as (_ & Hnslen & _).
  assert (length null_scores < length boot.2)%nat as Hmore.
  { unfold bootstrap in Hb.
    destruct (Z.ltb_spec nsampling 2); [lia|].
    destruct (Z.ltb_spec (nsample features) 3); [lia|].
    rewrite select_indices_count in Hb by done. monad_inv.
    match goal with H : Ok _ = Ok _ |- _ => injection H as <- end.
    simpl. rewrite Hnslen, <- Hslen.
    destruct (slices_overlap n (compute_scores function features ref).*1 Hn)
      as (l & Hhead & Htail).
    { intros Hnil%fmap_nil_inv. rewrite Hnil in Hslen. by destruct (rows features). }
    { by rewrite length_fmap, Hslen. }
    apply (merge_outer_length_gt _ _ l).
    - by apply (subseteq_take (Z.to_nat n)).
    - rewrite map_app, filter_app, length_app.
      match goal with
      | |- (2 <= length (filter _ (map ?f (slice_head _ _)))
                 + length (filter _ (map ?f (slice_tail _ _))))%nat =>
          pose proof (filter_label_map_ge f _ l (fun _ => eq_refl) Hhead);
          pose proof (filter_label_map_ge f _ l (fun _ => eq_refl) Htail)
      end.
      lia. }
  rewrite <- Hnslen, pvals_loop_IndexError; [done | done | lia | simpl; lia].
Qed.

End OverlappingSelection.

(** ** The draws of a run *)

Lemma draws_ret {A} (a : A) : draws 0 (mret a).
Proof. intros g b g1 H. monad_inv. by intros k. Qed.

Lemma draws_lift {A} (r : result A) : draws 0 (lift r).
Proof. intros g b g1 H. monad_inv. by intros k. Qed.

Lemma draws_draw_below bound : draws 1 (draw_below bound).
Proof. intros g b g1 H. unfold draw_below in H. simplify_eq. by intros k. Qed.

Lemma draws_bind {A B} n n' (P : A -> Prop) (m : M A) (k : A -> M B) :
  draws n m ->
  (forall g a g1, m g = Ok (a, g1) -> P a) ->
  (forall a, P a -> draws n' (k a)) ->
  draws (n + n') (m ≫= k).
Proof.
  intros Hm HP Hk g b g2 H. monad_inv.
  match goal with Ha : m g = Ok (?a, ?g1) |- _ =>
    pose proof (Hm _ _ _ Ha) as H1; pose proof (Hk a (HP _ _ _ Ha) _ _ _ H) as H2
  end.
  intros j. rewrite H2. unfold advance. rewrite H1. unfold advance. f_equal. lia.
Qed.

Lemma draws_eq {A} n n' (m : M A) : n = n' -> draws n m -> draws n' m.
Proof. by intros ->. Qed.

Lemma draws_shuffle_from {A} i (l : list A) : draws i (shuffle_from i l).
Proof.
  revert l. induction i as [|i IH]; intros l; simpl; [apply draws_ret|].
  apply (draws_bind 1 i (fun _ => True)); [apply draws_draw_below | done | auto].
Qed.

Lemma draws_random_choice {A} (a : list A) size : draws size (random_choice a size).
Proof.
  induction size as [|size IH]; simpl; [apply draws_ret|].
  apply (draws_bind 1 size (fun _ => True)); [apply draws_draw_below | done |].
  intros i _. apply (draws_eq (size + 0)); [lia|].
  apply (draws_bind size 0 (fun _ => True)); [done | done |].
  intros rest _. apply draws_ret.
Qed.

Lemma draws_repeat_m {A} n c (m : M A) : draws c m -> draws (n * c) (repeat_m n m).
Proof.
  intros Hm. induction n as [|n IH]; simpl; [apply draws_ret|].
  apply (draws_bind c (n * c) (fun _ => True)); [done | done |].
  intros x _. apply (draws_eq (n * c + 0)); [lia|].
  apply (draws_bind (n * c) 0 (fun _ => True)); [done | done |].
  intros rest _. apply draws_ret.
Qed.

Lemma draws_shuffles n (l : list pyfloat) :
  draws (n * (length l - 1)) (shuffles n l).
Proof.
  revert l. induction n as [|n IH]; intros l; simpl; [apply draws_ret|].
  apply (draws_bind (length l - 1) (n * (length l - 1))
           (fun s => length s = length l)).
  - apply draws_shuffle_from.
  - intros g s g1 H. by eapply shuffle_from_length.
  - intros s Hs. apply (draws_eq (n * (length s - 1) + 0)); [rewrite Hs; lia|].
    apply (draws_bind _ 0 (fun _ => True)); [apply IH | done |].
    intros rest _. apply draws_ret.
Qed.

Section Draws.

Context {externals : Externals}.

Lemma draws_bootstrap function features ref scores nfeatures nsampling confidence :
  draws (bootstrap_draws features nsampling)
        (bootstrap function features ref scores nfeatures nsampling confidence).
Proof.
  unfold bootstrap, bootstrap_draws.
  destruct (nsampling <? 2); [apply draws_ret|].
  destruct (nsample features <? 3); cbn [orb]; [apply draws_ret|].
  apply (draws_bind 0 (Z.to_nat nsampling * Z.to_nat (nsample features))
           (fun _ => True)); [apply draws_lift | done |].
  intros sel _.
  apply (draws_eq (Z.to_nat nsampling * Z.to_nat (nsample features) + 0)); [lia|].
  apply (draws_bind _ 0 (fun _ => True)); [|done|intros; apply draws_ret].
  apply draws_repeat_m. unfold bootstrap_replicate.
  apply (draws_eq (Z.to_nat (nsample features) + 0)); [lia|].
  apply (draws_bind _ 0 (fun _ => True));
    [apply draws_random_choice | done | intros; apply draws_ret].
Qed.

Lemma draws_permutation_scores function features ref nperm :
  draws (permutation_draws ref nperm) (permutation_scores function features ref nperm).
Proof.
  unfold permutation_scores, permutation_draws.
  destruct (nperm <? 0); [by intros g a g1 H|].
  apply (draws_eq (Z.to_nat nperm * (length ref.*2 - 1) + 0));
    [rewrite length_fmap; lia|].
  apply (draws_bind _ 0 (fun _ => True));
    [apply draws_shuffles | done | intros; apply draws_ret].
Qed.

(** X3. A run that returns has advanced numpy's generator by a number of
    draws fixed by the sizes and the configuration alone: [nsample] for each of
    the [nsampling] bootstrap replicates when the bootstrap is not skipped, and
    one less than the length of the reference for each of the [nperm]
    permutations.  The values of the features and of the reference play no
    part. *)
Theorem run_advances_generator features ref metric nfeatures ascending nsampling
    confidence nperm g tbl g2 :
  compute_against_reference features ref metric nfeatures ascending nsampling
    confidence nperm g = Ok (tbl, g2) ->
  same_draws g2
    (advance (bootstrap_draws features nsampling + permutation_draws ref nperm) g).
Proof.
  intros (function & boot & g1 & ns & frame & _ & Hb & Hp & _ & _)
           %compute_against_reference_Ok.
  apply draws_bootstrap in Hb. apply draws_permutation_scores in Hp.
  intros k. rewrite Hp. unfold advance. rewrite Hb. unfold advance. f_equal. lia.
Qed.

End Draws.

(** ** The permuted references *)

Lemma swap_perm {A} i j (l : list A) : swap i j l ≡ₚ l.
Proof.
  unfold swap.
  destruct (l !! i) as [a|] eqn:Hi; [|done].
  destruct (l !! j) as [b|] eqn:Hj; [|done].
  apply Permutation_inj. split; [by rewrite !length_insert|].
  exists (fun k => if decide (k = i) then j else if decide (k = j) then i else k).
  split.
  - intros x y. repeat case_decide; intros; subst; congruence.
  - intros k. apply lookup_lt_Some in Hi as Hi', Hj as Hj'.
    destruct (decide (k = i)) as [-> | Hki].
    + rewrite list_lookup_insert_eq by (by rewrite length_insert). done.
    + rewrite list_lookup_insert_ne by done.
      destruct (decide (k = j)) as [-> | Hkj].
      * by rewrite list_lookup_insert_eq.
      * by rewrite list_lookup_insert_ne.
Qed.

Lemma shuffle_from_perm {A} i (l : list A) g l' g1 :
  shuffle_from i l g = Ok (l', g1) -> l' ≡ₚ l.
Proof.
  revert l g. induction i as [|i IH]; intros l g H; simpl in H; monad_inv; [done|].
  match goal with H : shuffle_from i _ _ = Ok _ |- _ => apply IH in H as -> end.
  apply swap_perm.
Qed.

Lemma shuffles_perm n (l : list pyfloat) g perms g1 :
  shuffles n l g = Ok (perms, g1) -> forall s, s ∈ perms -> s ≡ₚ l.
Proof.
  revert l g perms g1. induction n as [|n IH]; intros l g perms g1 H s Hs;
    simpl in H; monad_inv; [by apply elem_of_nil in Hs|].
  match goal with H : random_shuffle _ _ = Ok _ |- _ => apply shuffle_from_perm in H as Hp end.
  apply elem_of_cons in Hs as [-> | Hs]; [done|].
  rewrite <- Hp. by eapply IH.
Qed.

(** X4. The null scores come from rearrangements of the reference values:
    there are [nperm] orders of the reference values, each a permutation of
    them, and the null score of feature [j] at permutation [i] is the metric of
    the feature's values against the [i]-th order, the same order for all
    features. *)
Theorem null_scores_from_permutations (function : metric_fn) features ref nperm g
    null_scores g1 :
  permutation_scores function features ref nperm g = Ok (null_scores, g1) ->
  exists perms : list (list pyfloat),
    length perms = Z.to_nat nperm /\
    (forall s, s ∈ perms -> s ≡ₚ ref.*2) /\
    forall j r i s, rows features !! j = Some r -> perms !! i = Some s ->
      exists nulls, null_scores !! j = Some nulls /\ nulls !! i = Some (function r.2 s).
Proof.
  unfold permutation_scores. destruct (nperm <? 0); [done|].
  intros H. monad_inv.
  match goal with H : shuffles _ _ _ = Ok (?p, _) |- _ =>
    exists p; pose proof (shuffles_length _ _ _ _ _ H); pose proof (shuffles_perm _ _ _ _ _ H)
  end.
  split_and!; [done | done |].
  intros j r i s Hr Hs. eexists. split.
  - rewrite list_lookup_fmap, Hr. reflexivity.
  - by rewrite list_lookup_fmap, Hs.
Qed.

(** ** The order of the checks *)

Section Checks.

Context {externals : Externals}.

(** X5. A metric other than the literal ['information_coef'], be it another
    name or a string of that text that is not the interned object, makes the
    scoring raise the unknown-metric error before anything is computed or
    drawn, whatever the other arguments are; in
    [rank_features_against_reference] the check of the common columns comes
    first, so with no common column the empty-intersection error is raised
    instead. *)
Theorem unknown_metric_raises features ref features_ascending ref_ascending ref_sort
    metric n_features n_samplings confidence n_perms g :
  metric <> literal "information_coef" ->
  compute_against_reference features ref metric n_features features_ascending
    n_samplings confidence n_perms g = Err ValueError_unknown_metric /\
  rank_features_against_reference features ref features_ascending ref_ascending
    ref_sort metric n_features n_samplings confidence n_perms g
  = Err (if decide (col_intersection features ref = ∅)
         then ValueError_no_intersection else ValueError_unknown_metric).
Proof.
  intros Hmetric.
  assert (forall features ref g,
            compute_against_reference features ref metric n_features features_ascending
              n_samplings confidence n_perms g = Err ValueError_unknown_metric) as Hc.
  { intros features0 ref0 g0. unfold compute_against_reference.
    destruct (metric_function metric) as [function|e] eqn:Hm.
    - by apply metric_function_Ok in Hm as [-> _].
    - unfold metric_function in Hm. destruct (is_literal _ _); [done|].
      by injection Hm as <-. }
  split; [apply Hc|].
  unfold rank_features_against_reference.
  destruct (decide (col_intersection features ref = ∅)) as [Hempty | Hne].
  - unfold prepare_inputs. by destruct (decide (col_intersection features ref = ∅)).
  - destruct (prepare_inputs_Ok features ref ref_sort ref_ascending Hne)
      as (features' & ref' & -> & _).
    unfold mbind, M_bind, lift. by rewrite Hc.
Qed.

End Checks.

(** ** The rows that reach the scoring *)

Lemma has_nonzero_row_take cols vals labels :
  has_nonzero (row_take cols vals labels) = true <->
  exists c, c ∈ labels /\ fne (series_get (zip cols vals) c) (Num 0) = true.
Proof.
  unfold has_nonzero, row_take, series_take. rewrite existsb_exists. split.
  - intros (x & Hx & Hne). apply list_elem_of_In in Hx.
    apply list_elem_of_fmap in Hx as ([c v] & -> & Hx).
    apply list_elem_of_fmap in Hx as (c' & [= -> ->] & Hc). by exists c'.
  - intros (c & Hc & Hne). exists (series_get (zip cols vals) c). split; [|done].
    apply list_elem_of_In, list_elem_of_fmap. exists (c, series_get (zip cols vals) c).
    split; [done|]. apply list_elem_of_fmap. by exists c.
Qed.

Lemma filter_map_labels {A B} (h : string * A -> string * B) (P : string * B -> Prop)
    `{!forall x, Decision (P x)} (l : list (string * A)) :
  (forall r, (h r).1 = r.1) ->
  (filter P (map h l)).*1 = (filter (fun r => P (h r)) l).*1.
Proof.
  intros Hh. induction l as [|r l IH]; [done|].
  cbn [map]. rewrite !filter_cons. destruct (decide (P (h r))).
  - rewrite !fmap_cons, Hh. by f_equal.
  - done.
Qed.

Section RowsScored.

Context {externals : Externals}.

(** X6. After the restriction to the common columns, the rows whose values on
    these columns are all 0 are dropped and the others keep their order: a row
    that is 0 on every common column does not reach the scoring, whatever it
    holds elsewhere, and every row that does reach it has a value that is not
    0 (or is NaN). *)
Theorem zero_rows_do_not_reach_scoring features ref ref_sort ref_ascending :
  col_intersection features ref <> ∅ ->
  exists features' ref',
    prepare_inputs features ref ref_sort ref_ascending = Ok (features', ref') /\
    index features' =
      (filter (fun r => has_nonzero (row_take (columns features) r.2
                                       (set_iteration (col_intersection features ref))))
              (rows features)).*1 /\
    forall r', r' ∈ rows features' -> has_nonzero r'.2 = true.
Proof.
  intros Hne. unfold prepare_inputs.
  destruct (decide (col_intersection features ref = ∅)) as [|_]; [done|].
  set (cols := set_iteration (col_intersection features ref)).
  assert (index (drop_zero_rows (take_columns features cols)) =
          (filter (fun r => has_nonzero (row_take (columns features) r.2 cols))
                  (rows features)).*1) as Hindex.
  { unfold index, drop_zero_rows, take_columns. simpl.
    etrans; [apply (filter_map_labels
                      (fun r => (r.1, row_take (columns features) r.2 cols))
                      (fun r => existsb (fun x => fne x (Num 0)) r.2)); done|].
    reflexivity. }
  destruct ref_sort; eexists _, _; (split; [reflexivity|]); simpl.
  - split.
    + rewrite <- Hindex. unfold index. simpl. by rewrite <- list_fmap_compose.
    + intros r' (r0 & -> & Hr0)%list_elem_of_fmap. simpl.
      apply list_elem_of_filter in Hr0 as [Hnz Hr0].
      apply list_elem_of_fmap in Hr0 as (r & -> & Hr). simpl in *.
      apply Is_true_true in Hnz.
      rewrite row_take_row_take.
      * apply has_nonzero_row_take. apply has_nonzero_row_take in Hnz as (c & Hc & Hv).
        exists c. split; [|done].
        rewrite (sort_values_perm snd ref_ascending (series_take ref cols)).
        by rewrite series_take_labels.
      * intros c Hc.
        rewrite (sort_values_perm snd ref_ascending (series_take ref cols)) in Hc.
        by rewrite series_take_labels in Hc.
  - split; [exact Hindex|].
    intros r' [Hnz _]%list_elem_of_filter. by apply Is_true_true in Hnz.
Qed.

End RowsScored.

(** ** The values of the p-values *)

Lemma count_exceeding_antitone (nulls : list pyfloat) (p1 p2 : Q) :
  (p1 <= p2)%Q ->
  count_exceeding nulls (Num p2) <= count_exceeding nulls (Num p1).
Proof.
  intros Hle. unfold count_exceeding. apply inj_le.
  induction nulls as [|x nulls IH]; [done|].
  rewrite !filter_cons.
  destruct (decide (fgt x (Num p2))) as [H2 | H2];
    destruct (decide (fgt x (Num p1))) as [H1 | H1]; simpl; try lia.
  exfalso. apply H1. destruct x as [q|]; [|done]. simpl in *.
  apply Is_true_true. apply Is_true_true in H2.
  apply negb_true_iff, not_true_iff_false. apply negb_true_iff, not_true_iff_false in H2.
  intros Hq%Qle_bool_iff. apply H2, Qle_bool_iff. by apply (Qle_trans _ p1).
Qed.

Lemma pvalue_monotone (c1 c2 total : Z) :
  0 <= c2 <= c1 -> c1 <= total -> 1 <= total ->
  exists q1 q2, pvalue c1 total = Ok (Num q1) /\ pvalue c2 total = Ok (Num q2) /\
    (q2 <= q1)%Q.
Proof.
  intros Hc Hc1 Ht.
  destruct (pvalue_range c1 total) as (q1 & Hq1 & Hlow1 & _ & _ & _ & Hv1); [lia | lia |].
  destruct (pvalue_range c2 total) as (q2 & Hq2 & _ & _ & _ & Hz2 & Hv2); [lia | lia |].
  exists q1, q2. split_and!; [done | done |].
  destruct (decide (c2 = 0)) as [-> | Hne].
  - by rewrite (Hz2 eq_refl).
  - rewrite (Hv2 Hne), (Hv1 ltac:(lia)).
    unfold Qdiv. apply Qmult_le_compat_r.
    + rewrite <- Zle_Qle. lia.
    + apply Qlt_le_weak, Qinv_lt_0_compat, inject_Z_pos. lia.
Qed.

Section PValues.

Context {externals : Externals}.

(** The rows of a returned table, all scored against one matrix of null
    scores. *)
Lemma table_rows_scored features ref metric nfeatures ascending nsampling confidence
    nperm g tbl g2 :
  compute_against_reference features ref metric nfeatures ascending nsampling
    confidence nperm g = Ok (tbl, g2) ->
  exists function null_scores g1,
    permutation_scores function features ref nperm g1 = Ok (null_scores, g2) /\
    forall r, r ∈ table_rows tbl ->
      (feature r, metric_value r) ∈ compute_scores function features ref /\
      exists j f v,
        (f.1.1, f.1.2) ∈ compute_scores function features ref /\
        f.1.1 = feature r /\
        scored_at null_scores nperm (Z.of_nat (length (rows features))) j f v /\
        local_pvalue r = v.1 /\ global_pvalue r = v.2.
Proof.
  intros (function & boot & g1 & null_scores & frame & Hm & Hb & Hp & Hl & ->)
           %compute_against_reference_Ok.
  exists function, null_scores, g1. split; [done|].
  intros r Hr. simpl in Hr. rewrite sort_values_perm in Hr.
  apply merge_pvals_elem in Hr
    as (b & e & Hb' & He & Hlabel & Hf & Hmv & _ & Hlp & Hgp & _).
  destruct e as [[l v] q]. apply elem_of_zip_l in He.
  apply bootstrap_rows in Hb as [Hrows _].
  apply pvals_loop_spec in Hl as [_ Hframe].
  simpl in *. split; [rewrite Hf, Hmv; by apply Hrows|].
  destruct (Hframe l v He) as [[_ Hnot] | (j & f & Hj & Hfl & Hs)].
  - exfalso. apply Hnot. rewrite Hlabel.
    apply list_elem_of_fmap. exists b.1. split; [done|].
    apply list_elem_of_fmap. by exists b.
  - exists j, f, v. split_and!; try done.
    + apply Hrows. by eapply list_elem_of_lookup_2.
    + congruence.
Qed.

(** X7. Each local p-value of a returned table is [k / nperm] for a whole
    number [k] from 1 to [nperm], and each global p-value is
    [k / (nperm * n)] for a whole number [k] from 1 to [nperm * n], [n] the
    number of feature rows. *)
Theorem pvalues_are_counts_over_totals features ref metric nfeatures ascending nsampling
    confidence nperm g tbl g2 :
  1 <= nperm ->
  compute_against_reference features ref metric nfeatures ascending nsampling
    confidence nperm g = Ok (tbl, g2) ->
  forall r, r ∈ table_rows tbl ->
    exists kl kg : Z,
      1 <= kl <= nperm /\
      1 <= kg <= nperm * Z.of_nat (length (rows features)) /\
      local_pvalue r = Num (inject_Z kl / inject_Z nperm) /\
      global_pvalue r
      = Num (inject_Z kg / inject_Z (nperm * Z.of_nat (length (rows features)))).
Proof.
  intros Hnperm (function & null_scores & g1 & Hp & Hrows)%table_rows_scored r Hr.
  destruct (Hrows r Hr) as (Hin & j & f & v & _ & _ & (nulls & Hj & Hl & Hg) & Hlp & Hgp).
  apply permutation_scores_shape in Hp as (_ & _ & Hrow & Hall).
  assert (1 <= Z.of_nat (length (rows features))) as Hn.
  { apply compute_scores_labels in Hin as (x & Hx & _).
    destruct (rows features); [by apply elem_of_nil in Hx | simpl; lia]. }
  pose proof (count_exceeding_range nulls f.1.2) as Hc1.
  pose proof (count_exceeding_range (concat null_scores) f.1.2) as Hc2.
  rewrite (Hrow nulls) in Hc1 by (by eapply list_elem_of_lookup_2).
  rewrite Hall in Hc2.
  rewrite pvalue_pos in Hl, Hg by nia.
  exists (if count_exceeding nulls f.1.2 =? 0 then 1 else count_exceeding nulls f.1.2),
         (if count_exceeding (concat null_scores) f.1.2 =? 0 then 1
          else count_exceeding (concat null_scores) f.1.2).
  rewrite Hlp, Hgp. destruct v as [v1 v2]. simpl in *.
  injection Hl as <-. injection Hg as <-.
  destruct (Z.eqb_spec (count_exceeding nulls f.1.2) 0);
    destruct (Z.eqb_spec (count_exceeding (concat null_scores) f.1.2) 0);
    split_and!; try done; try lia; try nia.
Qed.

(** X8. The global p-value never grows with the score: of two features with
    number scores, the one with the greater or equal score has the smaller or
    equal global p-value.  Feature labels are distinct. *)
Theorem global_pvalue_antitone features ref metric nfeatures ascending nsampling
    confidence nperm g tbl g2 r1 r2 p1 p2 :
  1 <= nperm ->
  NoDup (index features) ->
  compute_against_reference features ref metric nfeatures ascending nsampling
    confidence nperm g = Ok (tbl, g2) ->
  r1 ∈ table_rows tbl -> r2 ∈ table_rows tbl ->
  metric_value r1 = Num p1 -> metric_value r2 = Num p2 ->
  (p1 <= p2)%Q ->
  exists q1 q2, global_pvalue r1 = Num q1 /\ global_pvalue r2 = Num q2 /\ (q2 <= q1)%Q.
Proof.
  intros Hnperm Hnd (function & null_scores & g1 & Hp & Hrows)%table_rows_scored
         Hr1 Hr2 Hm1 Hm2 Hle.
  destruct (Hrows r1 Hr1)
    as (Hin1 & j1 & f1 & v1 & Hf1 & Hl1 & (nulls1 & _ & _ & Hg1) & _ & Hgp1).
  destruct (Hrows r2 Hr2)
    as (Hin2 & j2 & f2 & v2 & Hf2 & Hl2 & (nulls2 & _ & _ & Hg2) & _ & Hgp2).
  rewrite Hl1 in Hf1. rewrite Hl2 in Hf2.
  rewrite (compute_scores_functional _ _ _ _ _ _ Hnd Hf1 Hin1), Hm1 in Hg1.
  rewrite (compute_scores_functional _ _ _ _ _ _ Hnd Hf2 Hin2), Hm2 in Hg2.
  apply permutation_scores_shape in Hp as (_ & _ & _ & Hall).
  assert (1 <= Z.of_nat (length (rows features))) as Hn.
  { apply compute_scores_labels in Hin1 as (x & Hx & _).
    destruct (rows features); [by apply elem_of_nil in Hx | simpl; lia]. }
  pose proof (count_exceeding_range (concat null_scores) (Num p1)) as Hc1.
  pose proof (count_exceeding_range (concat null_scores) (Num p2)) as Hc2.
  pose proof (count_exceeding_antitone (concat null_scores) p1 p2 Hle) as Hanti.
  rewrite Hall in Hc1.
  destruct (pvalue_monotone (count_exceeding (concat null_scores) (Num p1))
              (count_exceeding (concat null_scores) (Num p2))
              (nperm * Z.of_nat (length (rows features))))
    as (q1 & q2 & Hq1 & Hq2 & Hq); [lia | nia | nia |].
  exists q1, q2. rewrite Hgp1, Hgp2. split_and!; [congruence | congruence | done].
Qed.

End PValues.

Section RowsInOrder.

Context {externals : Externals}.

(** X10. When the bootstrap is skipped and sorting the scores leaves the rows
    where they are in the matrix (the features arrive in ascending order of
    score), the local p-value of every feature is computed from the null
    scores of that same feature: its row of [permutation_scores] is the row at
    its position in the matrix. *)
Theorem local_pvalue_from_own_nulls_when_sorted features ref metric nfeatures ascending
    nsampling confidence nperm g tbl g2 :
  nsampling < 2 \/ nsample features < 3 ->
  compute_scores information_coefficient features ref
  = map (fun r => (r.1, information_coefficient r.2 ref.*2)) (rows features) ->
  NoDup (index features) ->
  compute_against_reference features ref metric nfeatures ascending nsampling
    confidence nperm g = Ok (tbl, g2) ->
  exists null_scores,
    permutation_scores information_coefficient features ref nperm g
    = Ok (null_scores, g2) /\
    forall r, r ∈ table_rows tbl ->
      exists j values nulls,
        rows features !! j = Some (feature r, values) /\
        metric_value r = information_coefficient values ref.*2 /\
        null_scores !! j = Some nulls /\
        pvalue (count_exceeding nulls (metric_value r)) nperm = Ok (local_pvalue r).
Proof.
  intros Hskip Hsorted Hnd
         (function & boot & g1 & null_scores & frame & Hm & Hb & Hp & Hl & ->)
           %compute_against_reference_Ok.
  apply metric_function_Ok in Hm as [-> ->].
  rewrite bootstrap_skipped in Hb by done. injection Hb as <- <-.
  exists null_scores. split; [done|].
  intros r Hr. simpl in Hr. rewrite sort_values_perm in Hr.
  apply merge_pvals_elem in Hr
    as (b & e & Hb' & He & Hlabel & Hf & Hmv & _ & Hlp & _).
  destruct e as [[l v] q]. apply elem_of_zip_l in He.
  apply pvals_loop_spec in Hl as [_ Hframe]. simpl in *.
  assert (forall j f, map (fun r : string * pyfloat => (r.1, r.2, NaN))
                        (compute_scores information_coefficient features ref) !! j = Some f ->
                      exists values, rows features !! j = Some (f.1.1, values) /\
                        f.1.2 = information_coefficient values ref.*2) as Hpos.
  { intros j f Hj. rewrite Hsorted, !list_lookup_fmap in Hj.
    destruct (rows features !! j) as [[k values]|]; simpl in Hj; [|done].
    injection Hj as <-. by exists values. }
  destruct (Hframe l v He) as [[_ Hnot] | (j & f & Hj & Hfl & (nulls & Hn & Hlocal & _))].
  - exfalso. apply Hnot. rewrite Hlabel.
    apply list_elem_of_fmap. exists b.1. split; [done|].
    apply list_elem_of_fmap. by exists b.
  - destruct (Hpos j f Hj) as (values & Hrow & Hval).
    apply list_elem_of_lookup in Hb' as [jb Hjb].
    destruct (Hpos jb b Hjb) as (values' & Hrow' & Hval').
    assert (values' = values) as ->.
    { apply (NoDup_fst_functional (rows features) l).
      - done.
      - rewrite Hlabel. by eapply list_elem_of_lookup_2.
      - rewrite <- Hfl. by eapply list_elem_of_lookup_2. }
    assert (feature r = f.1.1) as -> by congruence.
    assert (metric_value r = f.1.2) as -> by congruence.
    exists j, values, nulls. rewrite Hlp. split_and!; done.
Qed.

End RowsInOrder.

(** * Further properties of the consensus *)

Lemma ratio_unit (c n : Z) :
  1 <= n -> 0 <= c <= n ->
  (0 <= inject_Z c / inject_Z n)%Q /\ (inject_Z c / inject_Z n <= 1)%Q /\
  ((inject_Z c / inject_Z n == 1)%Q <-> c = n) /\
  ((inject_Z c / inject_Z n == 0)%Q <-> c = 0).
Proof.
  intros Hn Hc. destruct n as [|p|p]; try lia.
  unfold Qle, Qeq, Qdiv, Qmult, Qinv, inject_Z. cbn.
  repeat split; try lia.
Qed.

Lemma fdiv_ratio (c n : Z) :
  1 <= n -> fdiv (Num (inject_Z c)) (Num (inject_Z n)) = Num (inject_Z c / inject_Z n).
Proof.
  intros Hn. unfold fdiv.
  destruct (Qeq_bool (inject_Z n) 0) eqn:E; [|reflexivity].
  apply Qeq_bool_iff in E. unfold Qeq, inject_Z in E. cbn in E. lia.
Qed.

Lemma length_filter_full {A} (P : A -> Prop) `{!forall x, Decision (P x)} (l : list A) :
  length (filter P l) = length l <-> Forall P l.
Proof.
  induction l as [|x l IH]; [split; [constructor|reflexivity]|].
  rewrite filter_cons. destruct (decide (P x)) as [Hx|Hx]; cbn [length].
  - rewrite Forall_cons. split.
    + intros E. split; [exact Hx|apply IH; lia].
    + intros [_ Hl]. f_equal. apply IH, Hl.
  - pose proof (length_filter P l). split; [lia|].
    intros Hl. apply Forall_cons in Hl as [Hx' _]. contradiction.
Qed.

Lemma length_filter_none {A} (P : A -> Prop) `{!forall x, Decision (P x)} (l : list A) :
  length (filter P l) = 0%nat <-> Forall (fun x => ~ P x) l.
Proof.
  induction l as [|x l IH]; [split; [constructor|reflexivity]|].
  rewrite filter_cons. destruct (decide (P x)) as [Hx|Hx]; cbn [length].
  - split; [lia|]. intros Hl. apply Forall_cons in Hl as [Hx' _]. contradiction.
  - rewrite Forall_cons, IH. tauto.
Qed.

Lemma square_entry {A} (f : nat -> nat -> A) (n i j : nat) :
  (i < n)%nat -> (j < n)%nat ->
  exists row, map (fun i => map (fun j => f i j) (seq 0 n)) (seq 0 n) !! i = Some row /\
              row !! j = Some (f i j).
Proof.
  intros Hi Hj. exists (map (fun j => f i j) (seq 0 n)). split.
  - change (map ?g ?l) with (g <$> l) at 1. rewrite list_lookup_fmap, lookup_seq_lt by exact Hi.
    reflexivity.
  - change (map ?g ?l) with (g <$> l). rewrite list_lookup_fmap, lookup_seq_lt by exact Hj.
    reflexivity.
Qed.

Lemma map_lookup {A B} (f : A -> B) (l : list A) (i : nat) (x : A) :
  l !! i = Some x -> map f l !! i = Some (f x).
Proof.
  intros Hx. change (map f l) with (f <$> l). rewrite list_lookup_fmap, Hx. reflexivity.
Qed.

Lemma normalized_entry (assignment_matrix : list (list Z)) (ncols : nat)
    (n_assignments : Z) (i j : nat) :
  1 <= n_assignments -> (i < ncols)%nat -> (j < ncols)%nat ->
  exists row,
    normalized_assignment_distance_matrix assignment_matrix ncols n_assignments !! i
      = Some row /\
    row !! j = Some (Num (inject_Z (if (i <=? j)%nat
                                    then agreements assignment_matrix i j else 0)
                          / inject_Z n_assignments)).
Proof.
  intros Hn Hi Hj.
  destruct (square_entry
              (fun i j => if (i <=? j)%nat then agreements assignment_matrix i j else 0)
              ncols i j Hi Hj) as (counts & Hrow & Hentry).
  exists (map (fun c => fdiv (Num (inject_Z c)) (Num (inject_Z n_assignments))) counts).
  split.
  - unfold normalized_assignment_distance_matrix, assignment_distance_matrix.
    apply map_lookup, Hrow.
  - rewrite <- (fdiv_ratio _ n_assignments Hn).
    apply (map_lookup (fun c => fdiv (Num (inject_Z c)) (Num (inject_Z n_assignments)))),
      Hentry.
Qed.

(** X11.  The normalized assignment distance matrix of [n_assignments >= 1]
    runs is filled on and above the diagonal only: every entry below the
    diagonal is 0, every diagonal entry is 1, and an entry above the diagonal
    is the share of runs that put the two columns in the same component, a
    number between 0 and 1 that is 1 exactly when all runs agree on them. *)
Theorem assignment_distances_upper_triangular (assignment_matrix : list (list Z))
    (ncols : nat) (n_assignments : Z) (i j : nat) :
  1 <= n_assignments ->
  length assignment_matrix = Z.to_nat n_assignments ->
  (i < ncols)%nat -> (j < ncols)%nat ->
  exists row q,
    normalized_assignment_distance_matrix assignment_matrix ncols n_assignments !! i
      = Some row /\
    row !! j = Some (Num q) /\
    ((j < i)%nat -> (q == 0)%Q) /\
    (i = j -> (q == 1)%Q) /\
    ((i < j)%nat ->
       (0 <= q)%Q /\ (q <= 1)%Q /\
       ((q == 1)%Q <-> Forall (fun run => run !! i = run !! j) assignment_matrix)).
Proof.
  intros Hn Hlen Hi Hj.
  destruct (normalized_entry assignment_matrix ncols n_assignments i j Hn Hi Hj)
    as (row & Hrow & Hentry).
  exists row, (inject_Z (if (i <=? j)%nat then agreements assignment_matrix i j else 0)
               / inject_Z n_assignments)%Q.
  assert (Hcount : 0 <= agreements assignment_matrix i j <= n_assignments).
  { unfold agreements.
    pose proof (length_filter (fun row : list Z => row !! i = row !! j) assignment_matrix).
    lia. }
  assert (Hfull : agreements assignment_matrix i j = n_assignments <->
                  Forall (fun run => run !! i = run !! j) assignment_matrix).
  { unfold agreements. split.
    - intros E. apply (proj1 (length_filter_full _ _)). lia.
    - intros E. apply (proj2 (length_filter_full _ _)) in E. rewrite E. lia. }
  destruct (ratio_unit (agreements assignment_matrix i j) n_assignments Hn Hcount)
    as (Hlo & Hhi & Hone & _).
  split; [exact Hrow|]. split; [exact Hentry|]. split; [|split].
  - intros Hlt. destruct (Nat.leb_spec i j) as [Hle|_]; [lia|].
    destruct n_assignments; try lia. reflexivity.
  - intros ->. rewrite Nat.leb_refl. apply Hone, Hfull.
    apply Forall_forall. reflexivity.
  - intros Hlt. destruct (Nat.leb_spec i j) as [_|Hgt]; [|lia].
    split; [exact Hlo|]. split; [exact Hhi|]. rewrite Hone. exact Hfull.
Qed.

Lemma coclusterings_sym (labels : list (list Z)) (i j : nat) :
  coclusterings labels i j = coclusterings labels j i.
Proof.
  unfold coclusterings. f_equal. f_equal. apply list_filter_iff.
  intros s. split; (intros [->|E]; [left; reflexivity|right; symmetry; exact E]).
Qed.

(** X12.  The co-clustering distances of [n_clusterings >= 1] clusterings are
    symmetric and lie between 0 and 1; the distance of a sample to itself is
    0, two samples are at distance 0 exactly when every clustering gives them
    the same label, and at distance 1 exactly when none does. *)
Theorem coclustering_distances_symmetric (labels : list (list Z)) (nsamples : nat)
    (n_clusterings : Z) (i j : nat) :
  1 <= n_clusterings ->
  length labels = Z.to_nat n_clusterings ->
  (i < nsamples)%nat -> (j < nsamples)%nat ->
  exists row_i row_j q,
    coclustering_distances labels nsamples n_clusterings !! i = Some row_i /\
    row_i !! j = Some (Num q) /\
    coclustering_distances labels nsamples n_clusterings !! j = Some row_j /\
    row_j !! i = Some (Num q) /\
    (0 <= q)%Q /\ (q <= 1)%Q /\
    ((q == 0)%Q <-> Forall (fun s => s !! i = s !! j) labels) /\
    ((q == 1)%Q <-> i <> j /\ Forall (fun s => s !! i <> s !! j) labels).
Proof.
  intros Hn Hlen Hi Hj.
  set (entry := fun i j => fsub (Num 1)
                             (fdiv (Num (inject_Z (coclusterings labels i j)))
                                   (Num (inject_Z n_clusterings)))).
  destruct (square_entry entry nsamples i j Hi Hj) as (row_i & Hrow_i & Hentry_i).
  destruct (square_entry entry nsamples j i Hj Hi) as (row_j & Hrow_j & Hentry_j).
  assert (Hvalue : forall a b, entry a b
            = Num (1 - inject_Z (coclusterings labels a b) / inject_Z n_clusterings)).
  { intros a b. unfold entry. rewrite fdiv_ratio by exact Hn. reflexivity. }
  exists row_i, row_j,
    (1 - inject_Z (coclusterings labels i j) / inject_Z n_clusterings)%Q.
  assert (Hcount : 0 <= coclusterings labels i j <= n_clusterings).
  { unfold coclusterings.
    pose proof (length_filter (fun s : list Z => i = j \/ s !! i = s !! j) labels). lia. }
  destruct (ratio_unit (coclusterings labels i j) n_clusterings Hn Hcount)
    as (Hlo & Hhi & Hone & Hzero).
  split; [exact Hrow_i|]. split; [rewrite <- Hvalue; exact Hentry_i|].
  split; [exact Hrow_j|].
  split; [rewrite (coclusterings_sym labels i j), <- Hvalue; exact Hentry_j|].
  set (ratio := (inject_Z (coclusterings labels i j) / inject_Z n_clusterings)%Q) in *.
  split; [lra|]. split; [lra|]. split.
  - transitivity (ratio == 1)%Q; [split; intros E; lra|]. rewrite Hone.
    unfold coclusterings. split.
    + intros E.
      assert (Hall : Forall (fun s : list Z => i = j \/ s !! i = s !! j) labels).
      { apply (proj1 (length_filter_full _ _)). lia. }
      eapply Forall_impl; [exact Hall|]. intros s [->|E']; [reflexivity|exact E'].
    + intros Hall.
      assert (Hall' : Forall (fun s : list Z => i = j \/ s !! i = s !! j) labels).
      { eapply Forall_impl; [exact Hall|]. intros s E'. right. exact E'. }
      apply (proj2 (length_filter_full _ _)) in Hall'. rewrite Hall'. lia.
  - transitivity (ratio == 0)%Q; [split; intros E; lra|]. rewrite Hzero.
    unfold coclusterings. split.
    + intros E.
      assert (Hnone : Forall (fun s : list Z => ~ (i = j \/ s !! i = s !! j)) labels).
      { apply (proj1 (length_filter_none _ _)). lia. }
      split.
      * intros ->. destruct labels as [|s labels']; [cbn in Hlen; lia|].
        apply Forall_cons in Hnone as [Hs _]. apply Hs. left. reflexivity.
      * eapply Forall_impl; [exact Hnone|]. intros s Hs E'. apply Hs. right. exact E'.
    + intros [Hij Hall].
      assert (Hnone : Forall (fun s : list Z => ~ (i = j \/ s !! i = s !! j)) labels).
      { eapply Forall_impl; [exact Hall|]. intros s Hs [E'|E']; [exact (Hij E')|exact (Hs E')]. }
      apply (proj2 (length_filter_none _ _)) in Hnone. rewrite Hnone. reflexivity.
Qed.

Lemma attempt_bind_Done {A B} (m : attempt A) (k : A -> attempt B) (b : B) :
  (m ≫= k) = Done b -> exists a, m = Done a /\ k a = Done b.
Proof.
  destruct m as [a|e]; cbn; [|discriminate]. intros Hk. exists a. split; [reflexivity|exact Hk].
Qed.

Lemma attempt_all_map_Done {A B} (f : A -> attempt B) (l : list A) (rs : list B) :
  attempt_all (map f l) = Done rs -> Forall2 (fun x r => f x = Done r) l rs.
Proof.
  revert rs. induction l as [|x l IH]; intros rs Hrs; cbn in Hrs.
  - injection Hrs as <-. constructor.
  - apply attempt_bind_Done in Hrs as (a & Ha & Hrs).
    apply attempt_bind_Done in Hrs as (rest & Hrest & Hrs).
    injection Hrs as <-. constructor; [exact Ha|apply IH, Hrest].
Qed.

Lemma Forall2_const_replicate {A B} (l : list A) (rs : list B) (r : B) (c : attempt B) :
  c = Done r -> Forall2 (fun _ r' => c = Done r') l rs -> rs = replicate (length l) r.
Proof.
  intros Hc. induction 1 as [|x r' l rs Hr' _ IH]; [reflexivity|].
  cbn. rewrite Hc in Hr'. injection Hr' as <-. f_equal. exact IH.
Qed.

Lemma agreements_replicate (m : nat) (assignment : list Z) (i j : nat) :
  agreements (replicate m assignment) i j
  = if decide (assignment !! i = assignment !! j) then Z.of_nat m else 0.
Proof.
  unfold agreements. induction m as [|m IH]; cbn [replicate].
  - destruct (decide _); reflexivity.
  - rewrite filter_cons. destruct (decide (assignment !! i = assignment !! j)) as [E|E].
    + cbn [length]. lia.
    + exact IH.
Qed.

(** X13.  Taking one assignment [n_assignments >= 1] times gives the same
    normalized assignment distances as taking it once: the entry of columns
    [i] and [j] is 1 when [i <= j] and the assignment puts them in the same
    component, and 0 otherwise, whatever [n_assignments] is. *)
Theorem repeated_assignment_counts_once (assignment : list Z) (ncols : nat)
    (n_assignments : Z) (i j : nat) :
  1 <= n_assignments -> (i < ncols)%nat -> (j < ncols)%nat ->
  exists row row1 q q1,
    normalized_assignment_distance_matrix
      (replicate (Z.to_nat n_assignments) assignment) ncols n_assignments !! i = Some row /\
    row !! j = Some (Num q) /\
    normalized_assignment_distance_matrix [assignment] ncols 1 !! i = Some row1 /\
    row1 !! j = Some (Num q1) /\
    (q == q1)%Q /\
    (q == if decide ((i <= j)%nat /\ assignment !! i = assignment !! j) then 1 else 0)%Q.
Proof.
  intros Hn Hi Hj.
  destruct (normalized_entry (replicate (Z.to_nat n_assignments) assignment) ncols
              n_assignments i j Hn Hi Hj) as (row & Hrow & Hentry).
  destruct (normalized_entry [assignment] ncols 1 i j ltac:(lia) Hi Hj)
    as (row1 & Hrow1 & Hentry1).
  eexists row, row1, _, _.
  split; [exact Hrow|]. split; [exact Hentry|].
  split; [exact Hrow1|]. split; [exact Hentry1|].
  rewrite agreements_replicate. change [assignment] with (replicate 1 assignment).
  rewrite agreements_replicate.
  assert (Hunit : (inject_Z n_assignments / inject_Z n_assignments == 1)%Q).
  { apply (ratio_unit n_assignments n_assignments); lia. }
  assert (Hnull : (inject_Z 0 / inject_Z n_assignments == 0)%Q).
  { apply (ratio_unit 0 n_assignments); lia. }
  rewrite Z2Nat.id by lia.
  destruct (Nat.leb_spec i j) as [Hle|Hgt];
    destruct (decide (assignment !! i = assignment !! j)) as [E|E];
    destruct (decide _) as [[H1 H2]|H1]; try lia; try contradiction;
    try (exfalso; apply H1; split; [lia|assumption]);
    rewrite ?Hunit, ?Hnull; split; reflexivity.
Qed.

Section ConsensusProperties.

Context {clusterers : Clusterers}.

Lemma nmf_One (matrix : DataFrame) (k seed : Z) (nmf_results : gmap Z nmf_result) :
  nmf matrix (One k) seed = Done nmf_results ->
  exists fit, sklearn_nmf matrix k seed = Done fit /\ nmf_results !! k = Some fit.
Proof.
  unfold nmf. cbn [nmf_loop]. intros Hfit.
  apply attempt_bind_Done in Hfit as (fit & Hfit & Hret).
  injection Hret as <-. exists fit. split; [exact Hfit|apply lookup_insert_eq].
Qed.

Lemma nmf_runs_Done (matrix : DataFrame) (k n_assignments : Z) (runs : list nmf_result) :
  1 <= n_assignments ->
  nmf_runs matrix k n_assignments = Done runs ->
  exists fit, sklearn_nmf matrix k SEED = Done fit /\
              runs = replicate (Z.to_nat n_assignments) fit.
Proof.
  intros Hn Hruns. unfold nmf_runs in Hruns.
  apply attempt_all_map_Done in Hruns.
  destruct (Z.to_nat n_assignments) as [|m] eqn:Hm; [lia|].
  pose proof Hruns as Hall.
  cbn [seq] in Hruns. inversion Hruns as [|? first ? rest Hfirst _]; subst.
  apply attempt_bind_Done in Hfirst as (nmf_results & Hnmf & Hlookup).
  destruct (nmf_One _ _ _ _ Hnmf) as (fit & Hfit & Hk).
  rewrite Hk in Hlookup. injection Hlookup as <-.
  exists fit. split; [exact Hfit|].
  rewrite <- (length_seq (S m) 0).
  eapply Forall2_const_replicate; [|exact Hall].
  rewrite Hnmf. cbn. rewrite Hk. reflexivity.
Qed.

Lemma nmf_and_score_step_Done (matrix : DataFrame) (n_assignments k : Z)
    (acc acc' : gmap Z nmf_result * gmap Z pyfloat) :
  1 <= n_assignments ->
  nmf_and_score_step matrix n_assignments k acc = Done acc' ->
  exists fit score,
    sklearn_nmf matrix k SEED = Done fit /\
    cophenet_average
      (normalized_assignment_distance_matrix
         (replicate (Z.to_nat n_assignments) (np_argmax_columns (H fit)))
         (length (columns matrix)) n_assignments) = Done score /\
    acc' = (<[k := fit]> acc.1, <[k := score]> acc.2).
Proof.
  intros Hn Hstep. unfold nmf_and_score_step in Hstep.
  destruct (Z.ltb_spec n_assignments 0) as [Hneg|_]; [lia|].
  apply attempt_bind_Done in Hstep as (runs & Hruns & Hstep).
  apply attempt_bind_Done in Hstep as (score & Hscore & Hret).
  destruct (nmf_runs_Done _ _ _ _ Hn Hruns) as (fit & Hfit & ->).
  exists fit, score. split; [exact Hfit|].
  change (map ?f ?l) with (f <$> l) in Hscore. rewrite fmap_replicate in Hscore.
  split; [exact Hscore|].
  injection Hret as <-.
  destruct (Z.to_nat n_assignments) as [|m] eqn:Hm; [lia|]. reflexivity.
Qed.

Lemma nmf_and_score_loop_Done (matrix : DataFrame) (n_assignments : Z) (ks : list Z)
    (acc out : gmap Z nmf_result * gmap Z pyfloat) :
  1 <= n_assignments ->
  nmf_and_score_loop matrix n_assignments ks acc = Done out ->
  forall k,
    (k ∈ ks ->
     exists fit score,
       sklearn_nmf matrix k SEED = Done fit /\
       out.1 !! k = Some fit /\ out.2 !! k = Some score /\
       cophenet_average
         (normalized_assignment_distance_matrix
            (replicate (Z.to_nat n_assignments) (np_argmax_columns (H fit)))
            (length (columns matrix)) n_assignments) = Done score) /\
    (k ∉ ks -> out.1 !! k = acc.1 !! k /\ out.2 !! k = acc.2 !! k).
Proof.
  intros Hn. revert acc. induction ks as [|k0 ks IH]; intros acc Hloop k; cbn in Hloop.
  - injection Hloop as <-. split; [intros Hk; inversion Hk|]. intros _. split; reflexivity.
  - apply attempt_bind_Done in Hloop as (acc' & Hstep & Hloop).
    destruct (nmf_and_score_step_Done _ _ _ _ _ Hn Hstep) as (fit & score & Hfit & Hscore & ->).
    destruct (IH _ Hloop k) as [Hin Hout].
    destruct (decide (k ∈ ks)) as [Hk|Hk].
    + split; [intros _; exact (Hin Hk)|]. intros Hnot. exfalso. apply Hnot. right. exact Hk.
    + destruct (Hout Hk) as [Hr Hs]. cbn [fst snd] in Hr, Hs. split.
      * intros Hk0. apply elem_of_cons in Hk0 as [->|Hk']; [|contradiction].
        exists fit, score. rewrite Hr, Hs, !lookup_insert_eq. repeat split; assumption.
      * intros Hnot. rewrite Hr, Hs, !lookup_insert_ne; [split; reflexivity| |].
        -- intros ->. apply Hnot. left.
        -- intros ->. apply Hnot. left.
Qed.

(** X14.  When [nmf_and_score] returns with [n_assignments >= 1], both
    dictionaries have exactly the values of [ks] as keys; the factorization
    kept for [k] is the fit with the fixed seed, and the score of [k] is the
    cophenetic correlation of the assignment distances of that one fit's
    assignment taken [n_assignments] times, every run being the same fit. *)
Theorem nmf_and_score_scores_one_fit (matrix : DataFrame) (ks : list Z) (method : string)
    (n_assignments : Z) (nmf_results : gmap Z nmf_result) (scores : gmap Z pyfloat) :
  1 <= n_assignments ->
  nmf_and_score matrix ks method n_assignments = Done (nmf_results, scores) ->
  dom nmf_results = list_to_set ks /\
  dom scores = list_to_set ks /\
  forall k, k ∈ ks ->
    exists fit score,
      sklearn_nmf matrix k SEED = Done fit /\
      nmf_results !! k = Some fit /\
      scores !! k = Some score /\
      cophenet_average
        (normalized_assignment_distance_matrix
           (replicate (Z.to_nat n_assignments) (np_argmax_columns (H fit)))
           (length (columns matrix)) n_assignments) = Done score.
Proof.
  intros Hn Hrun. unfold nmf_and_score in Hrun.
  destruct (String.eqb method "cophenetic_correlation"); [|discriminate].
  pose proof (nmf_and_score_loop_Done _ _ _ _ _ Hn Hrun) as Hloop.
  cbn [fst snd] in Hloop.
  split; [|split].
  - apply set_eq. intros k. rewrite elem_of_dom, elem_of_list_to_set.
    destruct (Hloop k) as [Hin Hout]. split.
    + intros [fit Hfit]. destruct (decide (k ∈ ks)) as [Hk|Hk]; [exact Hk|].
      destruct (Hout Hk) as [Hr _]. rewrite Hr, lookup_empty in Hfit. discriminate.
    + intros Hk. destruct (Hin Hk) as (fit & score & _ & Hr & _). exists fit. exact Hr.
  - apply set_eq. intros k. rewrite elem_of_dom, elem_of_list_to_set.
    destruct (Hloop k) as [Hin Hout]. split.
    + intros [score Hscore]. destruct (decide (k ∈ ks)) as [Hk|Hk]; [exact Hk|].
      destruct (Hout Hk) as [_ Hs]. rewrite Hs, lookup_empty in Hscore. discriminate.
    + intros Hk. destruct (Hin Hk) as (fit & score & _ & _ & Hs & _). exists score. exact Hs.
  - intros k Hk. exact (proj1 (Hloop k) Hk).
Qed.

Lemma Forall2_lookup_fmap {A B C} (P : A -> B -> Prop) (f : B -> C) (l : list A)
    (rs : list B) (p : nat) (c : C) :
  Forall2 P l rs -> (f <$> rs) !! p = Some c ->
  exists x r, l !! p = Some x /\ rs !! p = Some r /\ P x r /\ c = f r.
Proof.
  intros Hall Hc. rewrite list_lookup_fmap in Hc.
  destruct (rs !! p) as [r|] eqn:Hr; [|discriminate]. injection Hc as <-.
  destruct (Forall2_lookup_r _ _ _ _ _ Hall Hr) as (x & Hx & HP).
  exists x, r. repeat split; assumption.
Qed.

(** X15.  When [get_states_from_h] returns with [n_clusterings >= 1], the three
    tables have one row per entry of [n_states], in that order.  The labels of
    state [k] are the flat clusters of the co-clustering distances of one
    agglomerative clustering taken [n_clusterings] times, the cophenetic
    correlation is that of the same distances, and the membership row of [k]
    marks the samples whose label is [k] itself. *)
Theorem get_states_from_h_rows (h : DataFrame) (n_states : list Z) (max_std : pyfloat)
    (n_clusterings : Z) (labels : list (Z * list Z)) (cophenetic : list (Z * pyfloat))
    (memberships : list (Z * list Z)) :
  1 <= n_clusterings ->
  get_states_from_h h n_states max_std n_clusterings
    = Done (labels, cophenetic, memberships) ->
  exists associations,
    sample_associations h max_std = Done associations /\
    labels.*1 = n_states /\ cophenetic.*1 = n_states /\ memberships.*1 = n_states /\
    forall p k labels_,
      labels !! p = Some (k, labels_) ->
      exists clustering correlation,
        agglomerative_labels associations k = Done clustering /\
        ward_fcluster
          (coclustering_distances (replicate (Z.to_nat n_clusterings) clustering)
             (length associations) n_clusterings) k = Done labels_ /\
        cophenet_ward
          (coclustering_distances (replicate (Z.to_nat n_clusterings) clustering)
             (length associations) n_clusterings) = Done correlation /\
        cophenetic !! p = Some (k, correlation) /\
        memberships !! p
          = Some (k, map (fun label => if label =? k then 1 else 0) labels_).
Proof.
  intros Hn Hrun. unfold get_states_from_h in Hrun.
  apply attempt_bind_Done in Hrun as (associations & Hassoc & Hrun).
  exists associations. split; [exact Hassoc|].
  destruct (any_nonzero n_states); [|discriminate].
  apply attempt_bind_Done in Hrun as (states & Hstates & Hret).
  injection Hret as <- <- <-.
  apply attempt_all_map_Done in Hstates.
  assert (Hkeys : states.*1 = n_states).
  { induction Hstates as [|k s ks states Hs _ IH]; [reflexivity|].
    cbn. f_equal; [|exact IH].
    apply attempt_bind_Done in Hs as (r & _ & Hs). injection Hs as <-. reflexivity. }
  change (map ?f ?l) with (f <$> l).
  rewrite <- !list_fmap_compose.
  split; [exact Hkeys|]. split; [exact Hkeys|]. split; [exact Hkeys|].
  intros p k labels_ Hp.
  destruct (Forall2_lookup_fmap _ _ _ _ _ _ Hstates Hp) as (k0 & s & _ & Hs & Hk0 & Hpair).
  apply attempt_bind_Done in Hk0 as (r & Hr & Hk0). injection Hk0 as <-.
  cbn in Hpair. injection Hpair as -> ->.
  unfold states_for in Hr.
  apply attempt_bind_Done in Hr as (runs & Hruns & Hr).
  apply attempt_bind_Done in Hr as (labels' & Hlabels & Hr).
  apply attempt_bind_Done in Hr as (correlation & Hcorrelation & Hr).
  injection Hr as <-.
  apply attempt_all_map_Done in Hruns.
  destruct (Z.to_nat n_clusterings) as [|m] eqn:Hm; [lia|].
  pose proof Hruns as Hall.
  cbn [seq] in Hruns. inversion Hruns as [|? clustering ? rest Hfirst _]; subst.
  rewrite (Forall2_const_replicate _ _ clustering _ Hfirst Hall), length_seq
    in Hlabels, Hcorrelation.
  exists clustering, correlation.
  split; [exact Hfirst|]. split; [exact Hlabels|]. split; [exact Hcorrelation|].
  rewrite !list_lookup_fmap, Hs. split; reflexivity.
Qed.

(** X16.  [get_states_from_h] raises its ValueError as soon as no entry of
    [n_states] is non-zero, which covers the empty list and lists of zeros
    alike; the sample associations have been computed by then, and no
    clustering is run. *)
Theorem get_states_from_h_rejects_zero_states (h : DataFrame) (n_states : list Z)
    (max_std : pyfloat) (n_clusterings : Z) (associations : list (list pyfloat)) :
  sample_associations h max_std = Done associations ->
  Forall (fun k => k = 0) n_states ->
  get_states_from_h h n_states max_std n_clusterings = Raised ValueError_n_states.
Proof.
  intros Hassoc Hzero. unfold get_states_from_h. rewrite Hassoc. cbn.
  replace (any_nonzero n_states) with false; [reflexivity|].
  symmetry. unfold any_nonzero. induction Hzero as [|k ks -> _ IH]; [reflexivity|].
  cbn. exact IH.
Qed.

End ConsensusProperties.

(** ** Further runs on concrete inputs *)

Lemma table_has_one_row_per_feature_witness :
  exists tbl g2,
    two_permutations two_features (counter_stream 0) = Ok (tbl, g2) /\
    feature <$> table_rows tbl ≡ₚ index two_features.
Proof.
  eexists _, _. split; [vm_compute; reflexivity|].
  eapply proj1.
  eapply (@table_has_one_row_per_feature dot_product_externals two_features three_samples
            (literal "information_coef") (Float (95 # 100)) false 0 (95 # 100) 2 (counter_stream 0)).
  - apply (bool_decide_unpack (NoDup (index two_features))). vm_compute. exact I.
  - vm_compute. reflexivity.
Defined.

Lemma overlapping_count_raises_IndexError_witness :
  @compute_against_reference dot_product_externals four_sample_features four_samples
    (literal "information_coef") (Int 2) false 2 (95 # 100) 2 (counter_stream 0)
  = Err IndexError.
Proof.
  apply (@overlapping_count_raises_IndexError dot_product_externals).
  - lia.
  - discriminate.
  - simpl. lia.
  - lia.
  - vm_compute. discriminate.
  - lia.
Defined.

Lemma run_advances_generator_witness :
  exists tbl g2,
    two_permutations two_features (counter_stream 0) = Ok (tbl, g2) /\
    same_draws g2
      (advance (bootstrap_draws two_features 0 + permutation_draws three_samples 2)
         (counter_stream 0)).
Proof.
  eexists _, _. split; [vm_compute; reflexivity|].
  eapply (@run_advances_generator dot_product_externals two_features three_samples
            (literal "information_coef") (Float (95 # 100)) false 0 (95 # 100) 2 (counter_stream 0)).
  vm_compute. reflexivity.
Defined.

Lemma null_scores_from_permutations_witness :
  exists null_scores g1,
    permutation_scores dot_product two_features three_samples 2 (counter_stream 0)
    = Ok (null_scores, g1) /\
    exists perms : list (list pyfloat),
      length perms = 2%nat /\ forall s, s ∈ perms -> s ≡ₚ three_samples.*2.
Proof.
  eexists _, _. split; [vm_compute; reflexivity|].
  destruct (null_scores_from_permutations dot_product two_features three_samples 2
              (counter_stream 0) _ _ ltac:(vm_compute; reflexivity))
    as (perms & Hlen & Hperm & _).
  exists perms. split; [exact Hlen|exact Hperm].
Defined.

Lemma unknown_metric_raises_witness :
  @compute_against_reference dot_product_externals two_features three_samples
    {| text := "information_coef"; interned := false |} (Float (95 # 100)) false 0
    (95 # 100) 2 (counter_stream 0)
  = Err ValueError_unknown_metric.
Proof.
  apply (proj1 (@unknown_metric_raises dot_product_externals two_features three_samples
                  false false true {| text := "information_coef"; interned := false |}
                  (Float (95 # 100)) 0 (95 # 100) 2
                  (counter_stream 0) ltac:(discriminate))).
Defined.

Lemma zero_rows_do_not_reach_scoring_witness :
  exists features' ref',
    @prepare_inputs dot_product_externals two_features other_samples true false
    = Ok (features', ref') /\
    forall r', r' ∈ rows features' -> has_nonzero r'.2 = true.
Proof.
  destruct (@zero_rows_do_not_reach_scoring dot_product_externals two_features
              other_samples true false)
    as (features' & ref' & Hprep & _ & Hnonzero).
  - unfold col_intersection. simpl. intros Hempty.
    assert ("s2"%string ∈ (∅ : gset string)) as Hin; [|set_solver].
    rewrite <- Hempty. set_solver.
  - exists features', ref'. split; [exact Hprep|exact Hnonzero].
Defined.

Lemma pvalues_are_counts_over_totals_witness :
  exists tbl g2,
    two_permutations two_features (counter_stream 0) = Ok (tbl, g2) /\
    forall r, r ∈ table_rows tbl ->
      exists kl : Z, 1 <= kl <= 2 /\ local_pvalue r = Num (inject_Z kl / inject_Z 2).
Proof.
  eexists _, _. split; [vm_compute; reflexivity|].
  intros r Hr.
  destruct (@pvalues_are_counts_over_totals dot_product_externals two_features
              three_samples (literal "information_coef") (Float (95 # 100)) false 0 (95 # 100) 2
              (counter_stream 0) _ _ ltac:(lia) ltac:(vm_compute; reflexivity) r Hr)
    as (kl & kg & Hkl & _ & Hlocal & _).
  exists kl. split; [exact Hkl|exact Hlocal].
Defined.

Lemma global_pvalue_antitone_witness :
  exists tbl g2,
    two_permutations two_features (counter_stream 0) = Ok (tbl, g2) /\
    exists r1 r2,
      feature r1 = "B"%string /\ feature r2 = "A"%string /\
      exists q1 q2,
        global_pvalue r1 = Num q1 /\ global_pvalue r2 = Num q2 /\ (q2 <= q1)%Q.
Proof.
  eexists _, _. split; [vm_compute; reflexivity|].
  eexists _, _. split; [|split]; cycle 2.
  - eapply (@global_pvalue_antitone dot_product_externals two_features three_samples
              (literal "information_coef") (Float (95 # 100)) false 0 (95 # 100) 2
              (counter_stream 0) _ _ _ _ 0 2 ltac:(lia)).
    + apply (bool_decide_unpack (NoDup (index two_features))). vm_compute. exact I.
    + vm_compute. reflexivity.
    + right. left.
    + left.
    + reflexivity.
    + reflexivity.
    + discriminate.
  - reflexivity.
  - reflexivity.
Defined.

Lemma local_pvalue_from_own_nulls_when_sorted_witness :
  exists tbl g2 null_scores,
    two_permutations ascending_features (counter_stream 0) = Ok (tbl, g2) /\
    permutation_scores dot_product ascending_features three_samples 2 (counter_stream 0)
    = Ok (null_scores, g2).
Proof.
  eexists _, _.
  destruct (@local_pvalue_from_own_nulls_when_sorted dot_product_externals ascending_features
              three_samples (literal "information_coef") (Float (95 # 100)) false 0 (95 # 100) 2
              (counter_stream 0) _ _ ltac:(left; lia) ltac:(vm_compute; reflexivity)
              (bool_decide_unpack (NoDup (index ascending_features)) ltac:(vm_compute; exact I))
              ltac:(vm_compute; reflexivity))
    as (null_scores & Hnulls & _).
  exists null_scores. split; [vm_compute; reflexivity|exact Hnulls].
Defined.

Lemma assignment_distances_upper_triangular_witness :
  exists row q,
    normalized_assignment_distance_matrix [[0; 1; 0]; [0; 1; 1]] 3 2 !! 0%nat = Some row /\
    row !! 2%nat = Some (Num q) /\ (0 <= q)%Q /\ (q <= 1)%Q.
Proof.
  destruct (assignment_distances_upper_triangular [[0; 1; 0]; [0; 1; 1]] 3 2 0 2
              ltac:(lia) eq_refl ltac:(lia) ltac:(lia))
    as (row & q & Hrow & Hentry & _ & _ & Habove).
  destruct (Habove ltac:(lia)) as (Hlo & Hhi & _).
  exists row, q. split_and!; assumption.
Defined.

Lemma coclustering_distances_symmetric_witness :
  exists row_i row_j q,
    coclustering_distances [[0; 1; 0]; [0; 1; 1]] 3 2 !! 0%nat = Some row_i /\
    row_i !! 2%nat = Some (Num q) /\
    coclustering_distances [[0; 1; 0]; [0; 1; 1]] 3 2 !! 2%nat = Some row_j /\
    row_j !! 0%nat = Some (Num q).
Proof.
  destruct (coclustering_distances_symmetric [[0; 1; 0]; [0; 1; 1]] 3 2 0 2
              ltac:(lia) eq_refl ltac:(lia) ltac:(lia))
    as (row_i & row_j & q & Hrow_i & Hentry_i & Hrow_j & Hentry_j & _).
  exists row_i, row_j, q. split_and!; assumption.
Defined.

Lemma repeated_assignment_counts_once_witness :
  exists row row1 q q1,
    normalized_assignment_distance_matrix (replicate 30 [0; 1; 0]) 3 30 !! 0%nat
      = Some row /\
    row !! 2%nat = Some (Num q) /\
    normalized_assignment_distance_matrix [[0; 1; 0]] 3 1 !! 0%nat = Some row1 /\
    row1 !! 2%nat = Some (Num q1) /\
    (q == q1)%Q.
Proof.
  destruct (repeated_assignment_counts_once [0; 1; 0] 3 30 0 2
              ltac:(lia) ltac:(lia) ltac:(lia))
    as (row & row1 & q & q1 & Hrow & Hentry & Hrow1 & Hentry1 & Hsame & _).
  exists row, row1, q, q1. split_and!; assumption.
Defined.

Lemma nmf_and_score_scores_one_fit_witness :
  exists nmf_results scores,
    @nmf_and_score two_states two_features [2; 3] "cophenetic_correlation" 30
    = Done (nmf_results, scores) /\
    dom nmf_results = list_to_set [2; 3] /\ dom scores = list_to_set [2; 3].
Proof.
  destruct (@nmf_and_score two_states two_features [2; 3] "cophenetic_correlation" 30)
    as [[nmf_results scores]|e] eqn:Hrun; [|vm_compute in Hrun; discriminate Hrun].
  exists nmf_results, scores. split; [reflexivity|].
  destruct (@nmf_and_score_scores_one_fit two_states two_features [2; 3]
              "cophenetic_correlation" 30 nmf_results scores ltac:(lia) Hrun)
    as (Hresults & Hscores & _).
  split; assumption.
Defined.

Lemma get_states_from_h_rows_witness :
  exists labels cophenetic memberships,
    @get_states_from_h two_states two_features [2; 3] (Num 3) 50
    = Done (labels, cophenetic, memberships) /\
    labels.*1 = [2; 3] /\ memberships.*1 = [2; 3].
Proof.
  eexists _, _, _. split; [vm_compute; reflexivity|].
  destruct (@get_states_from_h_rows two_states two_features [2; 3] (Num 3) 50 _ _ _
              ltac:(lia) ltac:(vm_compute; reflexivity))
    as (associations & _ & Hlabels & _ & Hmemberships & _).
  split; assumption.
Defined.

Lemma get_states_from_h_rejects_zero_states_witness :
  @get_states_from_h two_states two_features [0; 0] (Num 3) 50
  = Raised ValueError_n_states.
Proof.
  eapply (@get_states_from_h_rejects_zero_states two_states).
  - reflexivity.
  - repeat constructor.
Defined.
